(** * fs/quota/quota.c: the quotactl(2) dispatcher

    A shallow embedding of the quota control dispatcher of the kernel
    (check_quotactl_permission, the record translators, the per-command
    helpers, do_quotactl, the legacy command layer and the system call
    itself), followed by the properties the specification states about it.

    Integers are modelled as [Z]; a value stored into a field of a narrower
    or differently signed C type goes through the matching cast below.
    Kernel state that the file reaches (the caller's user memory, the calls
    made into the filesystem and the security module) is threaded through a
    small state monad whose failure case is a NULL-pointer dereference. *)

From Stdlib Require Import ZArith List Bool Lia.
Import ListNotations.
Local Open Scope Z_scope.

(** ** C integer types *)

Module CInt.

Definition u8 (z : Z) : Z := z mod 2 ^ 8.
Definition u16 (z : Z) : Z := z mod 2 ^ 16.
Definition u32 (z : Z) : Z := z mod 2 ^ 32.
Definition u64 (z : Z) : Z := z mod 2 ^ 64.

(* conversion to a signed type of [w] bits: two's complement wrap-around *)
Definition sint (w : Z) (z : Z) : Z :=
  let m := z mod 2 ^ w in
  if m <? 2 ^ (w - 1) then m else m - 2 ^ w.

Definition s8 := sint 8.
Definition s32 := sint 32.
Definition s64 := sint 64.

Definition is_u32 (z : Z) : Prop := 0 <= z < 2 ^ 32.
Definition is_u64 (z : Z) : Prop := 0 <= z < 2 ^ 64.

End CInt.
Import CInt.

(** ** Constants of the quota interface

    The macros below are used by quota.c but defined in the kernel's
    headers (include/uapi/linux/quota.h, include/uapi/linux/dqblk_xfs.h,
    include/linux/quota.h, include/uapi/asm-generic/errno-base.h); the
    values are the ones these headers give. *)

Module K.

(* errno *)
Definition EPERM : Z := 1.
Definition ESRCH : Z := 3.
Definition EFAULT : Z := 14.
Definition ENODEV : Z := 19.
Definition EINVAL : Z := 22.
Definition EROFS : Z := 30.
Definition ENOSYS : Z := 38.

(* quota types *)
Definition USRQUOTA : Z := 0.
Definition GRPQUOTA : Z := 1.
Definition MAXQUOTAS : Z := 2.
Definition XQM_MAXQUOTAS : Z := 3.

(* command packing *)
Definition SUBCMDMASK : Z := 0x00ff.
Definition SUBCMDSHIFT : Z := 8.
Definition QCMD (cmd type : Z) : Z :=
  u32 (Z.lor (Z.shiftl cmd SUBCMDSHIFT) (Z.land type SUBCMDMASK)).

(* generic quota commands *)
Definition Q_SYNC : Z := 0x800001.
Definition Q_QUOTAON : Z := 0x800002.
Definition Q_QUOTAOFF : Z := 0x800003.
Definition Q_GETFMT : Z := 0x800004.
Definition Q_GETINFO : Z := 0x800005.
Definition Q_SETINFO : Z := 0x800006.
Definition Q_GETQUOTA : Z := 0x800007.
Definition Q_SETQUOTA : Z := 0x800008.

(* XFS quota manager commands: XQM_CMD(x) = ('X' << 8) + x *)
Definition XQM_CMD (x : Z) : Z := Z.shiftl 88 8 + x.
Definition XQM_COMMAND (x : Z) : bool :=
  Z.land x (Z.shiftl 0xff 8) =? Z.shiftl 88 8.
Definition Q_XQUOTAON : Z := XQM_CMD 1.
Definition Q_XQUOTAOFF : Z := XQM_CMD 2.
Definition Q_XGETQUOTA : Z := XQM_CMD 3.
Definition Q_XSETQLIM : Z := XQM_CMD 4.
Definition Q_XGETQSTAT : Z := XQM_CMD 5.
Definition Q_XQUOTARM : Z := XQM_CMD 6.
Definition Q_XQUOTASYNC : Z := XQM_CMD 7.
Definition Q_XGETQSTATV : Z := XQM_CMD 8.

(* legacy command words served by compat_quotactl *)
Definition QC_QUOTAON : Z := 0x0100.
Definition QC_QUOTAOFF : Z := 0x0200.
Definition QC_SYNC : Z := 0x0600.
Definition QC_SETQLIM : Z := 0x0700.
Definition QC_GETINFO : Z := 0x0900.
Definition QC_SETINFO : Z := 0x0A00.
Definition QC_SETGRACE : Z := 0x0B00.
Definition QC_SETFLAGS : Z := 0x0C00.
Definition QC_GETQUOTA : Z := 0x0D00.
Definition QC_SETQUOTA : Z := 0x0E00.
Definition QC_SETUSE : Z := 0x0F00.
Definition QC_GETSTATS : Z := 0x1100.

(* validity bits of struct if_dqblk *)
Definition QIF_BLIMITS : Z := 1.
Definition QIF_SPACE : Z := 2.
Definition QIF_ILIMITS : Z := 4.
Definition QIF_INODES : Z := 8.
Definition QIF_BTIME : Z := 16.
Definition QIF_ITIME : Z := 32.
Definition QIF_LIMITS : Z := Z.lor QIF_BLIMITS QIF_ILIMITS.
Definition QIF_USAGE : Z := Z.lor QIF_SPACE QIF_INODES.
Definition QIF_TIMES : Z := Z.lor QIF_BTIME QIF_ITIME.
Definition QIF_ALL : Z := Z.lor QIF_LIMITS (Z.lor QIF_USAGE QIF_TIMES).

(* validity bits of struct if_dqinfo *)
Definition IIF_BGRACE : Z := 1.
Definition IIF_IGRACE : Z := 2.
Definition IIF_FLAGS : Z := 4.
Definition DQF_INFO_DIRTY : Z := 0x10000.

(* field mask bits of struct fs_disk_quota *)
Definition FS_DQ_ISOFT : Z := Z.shiftl 1 0.
Definition FS_DQ_IHARD : Z := Z.shiftl 1 1.
Definition FS_DQ_BSOFT : Z := Z.shiftl 1 2.
Definition FS_DQ_BHARD : Z := Z.shiftl 1 3.
Definition FS_DQ_BTIMER : Z := Z.shiftl 1 6.
Definition FS_DQ_ITIMER : Z := Z.shiftl 1 7.
Definition FS_DQ_BCOUNT : Z := Z.shiftl 1 12.
Definition FS_DQ_ICOUNT : Z := Z.shiftl 1 13.

Definition FS_QSTATV_VERSION1 : Z := 1.
Definition MS_RDONLY : Z := 1.
Definition CAP_SYS_ADMIN : Z := 21.

End K.
Import K.

(** ** Quota records *)

(** struct if_dqblk (include/uapi/linux/quota.h): eight __u64 fields and a
    __u32 validity mask. *)
Record if_dqblk := {
  dqb_bhardlimit : Z;
  dqb_bsoftlimit : Z;
  dqb_curspace : Z;
  dqb_ihardlimit : Z;
  dqb_isoftlimit : Z;
  dqb_curinodes : Z;
  dqb_btime : Z;
  dqb_itime : Z;
  dqb_valid : Z
}.

(** struct fs_disk_quota (include/uapi/linux/dqblk_xfs.h).  The limits and
    counts are __u64, d_fieldmask is __u16, and the two timers d_itimer and
    d_btimer are __s32.  [d_other] stands for the fields quota.c never
    names (d_version, d_flags, d_id, the warning counts, the realtime
    fields and the padding), kept as their byte image. *)
Record fs_disk_quota := {
  d_fieldmask : Z;
  d_blk_hardlimit : Z;
  d_blk_softlimit : Z;
  d_ino_hardlimit : Z;
  d_ino_softlimit : Z;
  d_bcount : Z;
  d_icount : Z;
  d_itimer : Z;
  d_btimer : Z;
  d_other : list Z
}.

(* the fields of an if_dqblk hold values of their C types *)
Record if_dqblk_wf (r : if_dqblk) : Prop := {
  wf_bhardlimit : is_u64 (dqb_bhardlimit r);
  wf_bsoftlimit : is_u64 (dqb_bsoftlimit r);
  wf_curspace : is_u64 (dqb_curspace r);
  wf_ihardlimit : is_u64 (dqb_ihardlimit r);
  wf_isoftlimit : is_u64 (dqb_isoftlimit r);
  wf_curinodes : is_u64 (dqb_curinodes r);
  wf_btime : is_u64 (dqb_btime r);
  wf_itime : is_u64 (dqb_itime r);
  wf_valid : is_u32 (dqb_valid r)
}.

(** ** Structure translator *)

(* static void copy_to_if_dqblk(struct if_dqblk *dst, struct fs_disk_quota *src)
   Every field of dst is assigned, so the previous contents of dst do not
   matter.  The __s32 timers are converted to __u64. *)
Definition copy_to_if_dqblk (src : fs_disk_quota) : if_dqblk :=
  {| dqb_bhardlimit := u64 (d_blk_hardlimit src);
     dqb_bsoftlimit := u64 (d_blk_softlimit src);
     dqb_curspace := u64 (d_bcount src);
     dqb_ihardlimit := u64 (d_ino_hardlimit src);
     dqb_isoftlimit := u64 (d_ino_softlimit src);
     dqb_curinodes := u64 (d_icount src);
     dqb_btime := u64 (d_btimer src);
     dqb_itime := u64 (d_itimer src);
     dqb_valid := QIF_ALL |}.

(* if (valid & bit) mask |= bits; *)
Definition or_if (valid bit : Z) (bits : Z) (mask : Z) : Z :=
  if Z.land valid bit =? 0 then mask else u16 (Z.lor mask bits).

(* the six conditional updates of d_fieldmask, starting from 0 *)
Definition fieldmask_of_valid (valid : Z) : Z :=
  let m := 0 in
  let m := or_if valid QIF_BLIMITS (Z.lor FS_DQ_BSOFT FS_DQ_BHARD) m in
  let m := or_if valid QIF_SPACE FS_DQ_BCOUNT m in
  let m := or_if valid QIF_ILIMITS (Z.lor FS_DQ_ISOFT FS_DQ_IHARD) m in
  let m := or_if valid QIF_INODES FS_DQ_ICOUNT m in
  let m := or_if valid QIF_BTIME FS_DQ_BTIMER m in
  let m := or_if valid QIF_ITIME FS_DQ_ITIMER m in
  m.

(* static void copy_from_if_dqblk(struct fs_disk_quota *dst, struct if_dqblk *src)
   dst is an uninitialised local of the caller: the fields that are not
   assigned keep whatever dst held. *)
Definition copy_from_if_dqblk (dst : fs_disk_quota) (src : if_dqblk)
  : fs_disk_quota :=
  {| d_blk_hardlimit := u64 (dqb_bhardlimit src);
     d_blk_softlimit := u64 (dqb_bsoftlimit src);
     d_bcount := u64 (dqb_curspace src);
     d_ino_hardlimit := u64 (dqb_ihardlimit src);
     d_ino_softlimit := u64 (dqb_isoftlimit src);
     d_icount := u64 (dqb_curinodes src);
     d_btimer := s32 (dqb_btime src);
     d_itimer := s32 (dqb_itime src);
     d_fieldmask := fieldmask_of_valid (dqb_valid src);
     d_other := d_other dst |}.

(** ** Other structures that cross the system call boundary *)

(** struct if_dqinfo: two __u64 grace times, __u32 flags, __u32 valid. *)
Record if_dqinfo := {
  dqi_bgrace : Z;
  dqi_igrace : Z;
  dqi_flags : Z;
  dqi_valid : Z
}.

(** struct fs_quota_statv: quota.c reads and tests the leading __s8
    qs_version only; the remaining bytes of the structure are kept as they
    are laid out. *)
Record fs_quota_statv := {
  qs_version : Z;
  qs_rest : list Z
}.

(** struct fs_quota_stat is only passed through: its byte image. *)
Definition fs_quota_stat := list Z.

(** The structures of the legacy interface.  compat_dqblk has five
    unsigned int limits and counts, a 64-bit space count and two time_t
    timers; compat_dqinfo has six unsigned int fields; compat_dqstats has
    eight __u32 counters followed by a __u32 version. *)
Record compat_dqblk := {
  c_ihardlimit : Z;
  c_isoftlimit : Z;
  c_curinodes : Z;
  c_bhardlimit : Z;
  c_bsoftlimit : Z;
  c_curspace : Z;
  c_btime : Z;
  c_itime : Z
}.

Record compat_dqinfo := {
  ci_bgrace : Z;
  ci_igrace : Z;
  ci_flags : Z;
  ci_blocks : Z;
  ci_free_blk : Z;
  ci_free_entry : Z
}.

Record compat_dqstats := {
  cs_counters : list Z;
  cs_version : Z
}.

(** ** Kernel objects *)

(** struct kqid: a quota type and the kernel-internal id of that type. *)
Record kqid := {
  kq_type : Z;
  kq_id : Z
}.

(** A [struct path *] as do_quotactl receives it: NULL, an ERR_PTR, or a
    resolved path. *)
Inductive path_ptr :=
| PathNull
| PathErr (err : Z)
| PathOk (p : Z).

Definition IS_ERR_path (p : path_ptr) : bool :=
  match p with PathErr _ => true | _ => false end.

(** struct quotactl_ops: every operation may be absent (a NULL function
    pointer).  An operation is given by what it returns to the caller; the
    super block argument is the one the table belongs to.  An operation
    with an output parameter returns the value it leaves there. *)
Record quotactl_ops := {
  quota_on : option (Z -> Z -> path_ptr -> Z);
  quota_on_meta : option (Z -> Z -> Z);
  quota_off : option (Z -> Z);
  quota_sync : option (Z -> Z);
  get_info : option (Z -> Z * if_dqinfo);
  set_info : option (Z -> if_dqinfo -> Z);
  get_dqblk : option (kqid -> Z * fs_disk_quota);
  set_dqblk : option (kqid -> fs_disk_quota -> Z);
  get_xstate : option (Z * fs_quota_stat);
  get_xstatev : option (fs_quota_statv -> Z * fs_quota_statv);
  set_xstate : option (Z -> Z -> Z);
  rm_xquota : option (Z -> Z)
}.

(** struct super_block, as far as quota.c looks into it. *)
Record super_block := {
  s_dev : Z;
  s_flags : Z;
  s_qcop : option quotactl_ops;
  (* sb_has_quota_active(sb, type) *)
  sb_has_quota_active : Z -> bool;
  (* sb_dqopt(sb)->info[type].dqi_format->qf_fmt_id *)
  sb_fmt_id : Z -> Z;
  (* sb_has_rm_xquota(sb) *)
  sb_has_rm_xquota : bool
}.

(** ** Observable actions

    Each call that leaves quota.c towards the security module, the
    filesystem or the super block reference count is recorded, in order. *)
Inductive event :=
| EvSecurity (cmd type id : Z) (sb : option Z)
| EvQuotaOn (dev type id : Z) (path : path_ptr)
| EvQuotaOnMeta (dev type id : Z)
| EvQuotaOff (dev type : Z)
| EvQuotaSync (dev type : Z)
| EvGetInfo (dev type : Z)
| EvSetInfo (dev type : Z) (info : if_dqinfo)
| EvGetDqblk (dev : Z) (qid : kqid)
| EvSetDqblk (dev : Z) (qid : kqid) (fdq : fs_disk_quota)
| EvGetXstate (dev : Z)
| EvGetXstatev (dev : Z) (fqs : fs_quota_statv)
| EvSetXstate (dev flags cmd : Z)
| EvRmXquota (dev flags : Z)
| EvGetSuper (dev : Z) (thawed : bool)
| EvDropSuper (dev : Z)
| EvPathPut (p : Z).

(* does the event enter the filesystem's quotactl_ops table? *)
Definition is_qcop_call (e : event) : bool :=
  match e with
  | EvSecurity _ _ _ _ | EvGetSuper _ _ | EvDropSuper _ | EvPathPut _ => false
  | _ => true
  end.

Definition is_security_call (e : event) : bool :=
  match e with EvSecurity _ _ _ _ => true | _ => false end.

(** User memory: a byte per mapped address. *)
Definition umem := Z -> option Z.

Record world := {
  w_user : umem;
  w_log : list event
}.

(** ** The monad of kernel code *)

Inductive outcome (A : Type) :=
| Ret (a : A) (w : world)
| Oops (w : world).
Arguments Ret {A} a w.
Arguments Oops {A} w.

Definition M (A : Type) := world -> outcome A.

Definition ret {A} (a : A) : M A := fun w => Ret a w.

Definition bind {A B} (c : M A) (k : A -> M B) : M B :=
  fun w => match c w with
           | Ret a w' => k a w'
           | Oops w' => Oops w'
           end.

Declare Scope kernel_scope.
Delimit Scope kernel_scope with kernel.
Notation "x <- c ;; k" := (bind c (fun x => k))
  (at level 61, c at next level, right associativity) : kernel_scope.
Notation "c ;; k" := (bind c (fun _ => k))
  (at level 61, right associativity) : kernel_scope.
Local Open Scope kernel_scope.

(* record an action *)
Definition emit (e : event) : M unit :=
  fun w => Ret tt {| w_user := w_user w; w_log := w_log w ++ [e] |}.

(* follow a pointer: NULL stops the kernel *)
Definition deref {A} (p : option A) : M A :=
  fun w => match p with Some a => Ret a w | None => Oops w end.

Definition get_user_mem : M umem := fun w => Ret (w_user w) w.

(** ** User memory access *)

Definition store (m : umem) (a : Z) (b : Z) : umem :=
  fun x => if x =? a then Some b else m x.

(* copies bytes until the first unmapped address; the result is the
   number of bytes that could not be copied *)
Fixpoint write_bytes (m : umem) (a : Z) (bs : list Z) : umem * Z :=
  match bs with
  | [] => (m, 0)
  | b :: bs' =>
      match m a with
      | None => (m, Z.of_nat (length bs))
      | Some _ => write_bytes (store m a b) (a + 1) bs'
      end
  end.

(* the destination after the copy (bytes that could not be read are
   zero) and the number of bytes not copied *)
Fixpoint read_bytes (m : umem) (a : Z) (n : nat) : list Z * Z :=
  match n with
  | O => ([], 0)
  | S n' =>
      match m a with
      | None => (repeat 0 n, Z.of_nat n)
      | Some b => let (bs, r) := read_bytes m (a + 1) n' in (b :: bs, r)
      end
  end.

(* unsigned long copy_to_user(void __user *to, const void *from, n) *)
Definition copy_to_user (addr : Z) (bs : list Z) : M Z :=
  fun w => let (m, r) := write_bytes (w_user w) addr bs in
           Ret r {| w_user := m; w_log := w_log w |}.

(* unsigned long copy_from_user(void *to, const void __user *from, n) *)
Definition copy_from_user (addr : Z) (n : nat) : M (list Z * Z) :=
  fun w => Ret (read_bytes (w_user w) addr n) w.

(** ** Layout of the structures in memory (little endian, x86-64) *)

Fixpoint le (n : nat) (z : Z) : list Z :=
  match n with
  | O => []
  | S k => z mod 256 :: le k (z / 256)
  end.

Fixpoint of_le (bs : list Z) : Z :=
  match bs with
  | [] => 0
  | b :: bs' => b + 256 * of_le bs'
  end.

(* the [len] bytes at offset [off] *)
Definition bytes_at (bs : list Z) (off len : nat) : list Z :=
  firstn len (skipn off bs).

Definition uint_at (bs : list Z) (off len : nat) : Z :=
  of_le (bytes_at bs off len).

Class Wire (T : Type) := {
  sizeof : nat;
  to_bytes : T -> list Z;
  of_bytes : list Z -> T
}.

(* struct if_dqblk ends in four padding bytes and struct compat_dqblk has
   four before dqb_curspace; to_bytes leaves them zero, and a copy out of
   a local whose padding was never written replaces them (with_padding
   below) *)
#[export] Instance wire_if_dqblk : Wire if_dqblk := {
  sizeof := 72;
  to_bytes r :=
    le 8 (dqb_bhardlimit r) ++ le 8 (dqb_bsoftlimit r) ++
    le 8 (dqb_curspace r) ++ le 8 (dqb_ihardlimit r) ++
    le 8 (dqb_isoftlimit r) ++ le 8 (dqb_curinodes r) ++
    le 8 (dqb_btime r) ++ le 8 (dqb_itime r) ++
    le 4 (dqb_valid r) ++ repeat 0 4;
  of_bytes bs :=
    {| dqb_bhardlimit := uint_at bs 0 8;
       dqb_bsoftlimit := uint_at bs 8 8;
       dqb_curspace := uint_at bs 16 8;
       dqb_ihardlimit := uint_at bs 24 8;
       dqb_isoftlimit := uint_at bs 32 8;
       dqb_curinodes := uint_at bs 40 8;
       dqb_btime := uint_at bs 48 8;
       dqb_itime := uint_at bs 56 8;
       dqb_valid := uint_at bs 64 4 |}
}.

#[export] Instance wire_fs_disk_quota : Wire fs_disk_quota := {
  sizeof := 112;
  to_bytes r :=
    bytes_at (d_other r) 0 2 ++ le 2 (d_fieldmask r) ++
    bytes_at (d_other r) 2 4 ++
    le 8 (d_blk_hardlimit r) ++ le 8 (d_blk_softlimit r) ++
    le 8 (d_ino_hardlimit r) ++ le 8 (d_ino_softlimit r) ++
    le 8 (d_bcount r) ++ le 8 (d_icount r) ++
    le 4 (d_itimer r) ++ le 4 (d_btimer r) ++
    bytes_at (d_other r) 6 48;
  of_bytes bs :=
    {| d_fieldmask := uint_at bs 2 2;
       d_blk_hardlimit := uint_at bs 8 8;
       d_blk_softlimit := uint_at bs 16 8;
       d_ino_hardlimit := uint_at bs 24 8;
       d_ino_softlimit := uint_at bs 32 8;
       d_bcount := uint_at bs 40 8;
       d_icount := uint_at bs 48 8;
       d_itimer := s32 (uint_at bs 56 4);
       d_btimer := s32 (uint_at bs 60 4);
       d_other := bytes_at bs 0 2 ++ bytes_at bs 4 4 ++ bytes_at bs 64 48 |}
}.

#[export] Instance wire_if_dqinfo : Wire if_dqinfo := {
  sizeof := 24;
  to_bytes r :=
    le 8 (dqi_bgrace r) ++ le 8 (dqi_igrace r) ++
    le 4 (dqi_flags r) ++ le 4 (dqi_valid r);
  of_bytes bs :=
    {| dqi_bgrace := uint_at bs 0 8;
       dqi_igrace := uint_at bs 8 8;
       dqi_flags := uint_at bs 16 4;
       dqi_valid := uint_at bs 20 4 |}
}.

#[export] Instance wire_fs_quota_statv : Wire fs_quota_statv := {
  sizeof := 160;
  to_bytes r := le 1 (qs_version r) ++ qs_rest r;
  of_bytes bs := {| qs_version := s8 (uint_at bs 0 1); qs_rest := skipn 1 bs |}
}.

#[export] Instance wire_compat_dqblk : Wire compat_dqblk := {
  sizeof := 48;
  to_bytes r :=
    le 4 (c_ihardlimit r) ++ le 4 (c_isoftlimit r) ++ le 4 (c_curinodes r) ++
    le 4 (c_bhardlimit r) ++ le 4 (c_bsoftlimit r) ++ repeat 0 4 ++
    le 8 (c_curspace r) ++ le 8 (c_btime r) ++ le 8 (c_itime r);
  of_bytes bs :=
    {| c_ihardlimit := uint_at bs 0 4;
       c_isoftlimit := uint_at bs 4 4;
       c_curinodes := uint_at bs 8 4;
       c_bhardlimit := uint_at bs 12 4;
       c_bsoftlimit := uint_at bs 16 4;
       c_curspace := s64 (uint_at bs 24 8);
       c_btime := s64 (uint_at bs 32 8);
       c_itime := s64 (uint_at bs 40 8) |}
}.

#[export] Instance wire_compat_dqinfo : Wire compat_dqinfo := {
  sizeof := 24;
  to_bytes r :=
    le 4 (ci_bgrace r) ++ le 4 (ci_igrace r) ++ le 4 (ci_flags r) ++
    le 4 (ci_blocks r) ++ le 4 (ci_free_blk r) ++ le 4 (ci_free_entry r);
  of_bytes bs :=
    {| ci_bgrace := uint_at bs 0 4;
       ci_igrace := uint_at bs 4 4;
       ci_flags := uint_at bs 8 4;
       ci_blocks := uint_at bs 12 4;
       ci_free_blk := uint_at bs 16 4;
       ci_free_entry := uint_at bs 20 4 |}
}.

#[export] Instance wire_compat_dqstats : Wire compat_dqstats := {
  sizeof := 36;
  to_bytes r := cs_counters r ++ le 4 (cs_version r);
  of_bytes bs :=
    {| cs_counters := bytes_at bs 0 32; cs_version := uint_at bs 32 4 |}
}.

(* sizeof(struct fs_quota_stat) *)
Definition sizeof_fs_quota_stat : nat := 80.

(* the image of a local structure whose [len] padding bytes at offset
   [off] were never written: they hold [pad], whatever was on the stack *)
Definition with_padding (bs pad : list Z) (off len : nat) : list Z :=
  firstn off bs ++ firstn len (pad ++ repeat 0 len) ++ skipn (off + len) bs.

(* copy_to_user(addr, &v, sizeof(v)) *)
Definition put_struct {T} {W : Wire T} (addr : Z) (v : T) : M Z :=
  copy_to_user addr (to_bytes v).

(* copy_from_user(&v, addr, sizeof(v)): the value left in v and the
   result of the copy *)
Definition get_struct {T} {W : Wire T} (addr : Z) : M (T * Z) :=
  r <- copy_from_user addr sizeof ;;
  ret (of_bytes (fst r), snd r).

(* copy_from_user(&flags, addr, sizeof(__u32)) *)
Definition get_u32 (addr : Z) : M (Z * Z) :=
  r <- copy_from_user addr 4 ;;
  ret (of_le (fst r), snd r).

(** ** What quota.c takes from the rest of the kernel

    The calling task, the user namespace, the security module, the mount
    table and name lookup are outside quota.c; they are given by what
    they answer.  An uninitialised local variable holds some value that
    the code does not choose. *)
Record kenv := {
  (* current_euid() *)
  current_euid : Z;
  (* in_egroup_p(gid) *)
  in_egroup_p : Z -> bool;
  (* capable(cap) *)
  capable : Z -> bool;
  (* make_kuid(current_user_ns(), id), make_kgid(current_user_ns(), id) *)
  make_kuid : Z -> Z;
  make_kgid : Z -> Z;
  (* make_kqid(current_user_ns(), type, id) and qid_valid(qid) *)
  make_kqid : Z -> Z -> kqid;
  qid_valid : kqid -> bool;
  (* security_quotactl(cmd, type, id, sb) *)
  security_quotactl : Z -> Z -> Z -> option super_block -> Z;
  (* the super blocks iterate_supers() walks over *)
  supers : list super_block;
  (* getname(special): an errno or the name *)
  getname : umem -> Z -> Z + list Z;
  (* lookup_bdev(name): an errno or the block device *)
  lookup_bdev : list Z -> Z + Z;
  (* get_super(bdev), get_super_thawed(bdev): NULL or the super block *)
  get_super : Z -> option super_block;
  get_super_thawed : Z -> option super_block;
  (* user_path_at(AT_FDCWD, addr, flags, &path): result and path *)
  user_path_at : umem -> Z -> Z * Z;
  (* contents of uninitialised locals *)
  stack_fdq : fs_disk_quota;
  stack_idq : if_dqblk;
  (* what the padding bytes of an uninitialised local hold *)
  stack_pad : list Z
}.

Definition uid_eq (a b : Z) : bool := a =? b.

Section Dispatcher.

Variable E : kenv.

(* security_quotactl(cmd, type, id, sb); its third parameter is an int,
   to which the qid_t of the callers is converted *)
Definition call_security (cmd type id : Z) (sb : option super_block) : M Z :=
  emit (EvSecurity cmd type (s32 id) (option_map s_dev sb)) ;;
  ret (security_quotactl E cmd type (s32 id) sb).

(* the condition under which Q_GETQUOTA and Q_XGETQUOTA leave the switch
   without the capability test *)
Definition owns_dquot (type id : Z) : bool :=
  ((type =? USRQUOTA) && uid_eq (current_euid E) (make_kuid E id)) ||
  ((type =? GRPQUOTA) && in_egroup_p E (make_kgid E id)).

(* the default arm of the switch: Some r is [return r], None is falling
   out of the switch *)
Definition permission_default : option Z :=
  if negb (capable E CAP_SYS_ADMIN) then Some (- EPERM) else None.

Definition permission_switch (type cmd id : Z) : option Z :=
  if (cmd =? Q_GETFMT) || (cmd =? Q_SYNC) || (cmd =? Q_GETINFO) ||
     (cmd =? Q_XGETQSTAT) || (cmd =? Q_XGETQSTATV) || (cmd =? Q_XQUOTASYNC)
  then None
  else if (cmd =? Q_GETQUOTA) || (cmd =? Q_XGETQUOTA) then
    if owns_dquot type id then None
    else (* FALLTHROUGH *) permission_default
  else permission_default.

(* static int check_quotactl_permission(struct super_block *sb, int type,
                                        int cmd, qid_t id) *)
Definition check_quotactl_permission (sb : super_block) (type cmd id : Z)
  : M Z :=
  match permission_switch type cmd id with
  | Some r => ret r
  | None => call_security cmd type id (Some sb)
  end.

(* static void quota_sync_one(struct super_block *sb, void *arg) *)
Definition quota_sync_one (sb : super_block) (arg : Z) : M unit :=
  match s_qcop sb with
  | Some q =>
      match quota_sync q with
      | Some f => emit (EvQuotaSync (s_dev sb) arg) ;;
                  let _ := f arg in ret tt
      | None => ret tt
      end
  | None => ret tt
  end.

(* iterate_supers(f, arg): f on every super block of the mount table *)
Fixpoint iterate_over (l : list super_block)
    (f : super_block -> Z -> M unit) (arg : Z) : M unit :=
  match l with
  | [] => ret tt
  | sb :: l' => f sb arg ;; iterate_over l' f arg
  end.

Definition iterate_supers (f : super_block -> Z -> M unit) (arg : Z)
  : M unit :=
  iterate_over (supers E) f arg.

(* static int quota_sync_all(int type) *)
Definition quota_sync_all (type : Z) : M Z :=
  if type >=? MAXQUOTAS then ret (- EINVAL)
  else
    r <- call_security Q_SYNC type 0 None ;;
    (if r =? 0 then iterate_supers quota_sync_one type else ret tt) ;;
    ret r.

(* static int quota_quotaon(struct super_block *sb, int type, int cmd,
                            qid_t id, struct path *path) *)
Definition quota_quotaon (sb : super_block) (type cmd id : Z)
    (path : path_ptr) : M Z :=
  q <- deref (s_qcop sb) ;;
  match quota_on q, quota_on_meta q with
  | None, None => ret (- ENOSYS)
  | _, Some on_meta =>
      (* the format id parameter of both operations is an int *)
      emit (EvQuotaOnMeta (s_dev sb) type (s32 id)) ;;
      ret (on_meta type (s32 id))
  | Some on, None =>
      match path with
      | PathErr err => ret err
      | _ => emit (EvQuotaOn (s_dev sb) type (s32 id) path) ;;
             ret (on type (s32 id) path)
      end
  end.

(* static int quota_getfmt(struct super_block *sb, int type, void __user *addr)
   (dqonoff_mutex is taken around the two reads of sb_dqopt(sb)) *)
Definition quota_getfmt (sb : super_block) (type addr : Z) : M Z :=
  if negb (sb_has_quota_active sb type) then ret (- ESRCH)
  else
    let fmt := u32 (sb_fmt_id sb type) in
    r <- copy_to_user addr (le 4 fmt) ;;
    if r =? 0 then ret 0 else ret (- EFAULT).

(* static int quota_getinfo(struct super_block *sb, int type, void __user *addr) *)
Definition quota_getinfo (sb : super_block) (type addr : Z) : M Z :=
  q <- deref (s_qcop sb) ;;
  match get_info q with
  | None => ret (- ENOSYS)
  | Some f =>
      emit (EvGetInfo (s_dev sb) type) ;;
      let (r, info) := f type in
      if r =? 0 then
        c <- put_struct addr info ;;
        if c =? 0 then ret r else ret (- EFAULT)
      else ret r
  end.

(* static int quota_setinfo(struct super_block *sb, int type, void __user *addr) *)
Definition quota_setinfo (sb : super_block) (type addr : Z) : M Z :=
  i <- get_struct addr ;;
  if negb (snd i =? 0) then ret (- EFAULT)
  else
    q <- deref (s_qcop sb) ;;
    match set_info q with
    | None => ret (- ENOSYS)
    | Some f =>
        emit (EvSetInfo (s_dev sb) type (fst i)) ;;
        ret (f type (fst i))
    end.

(* static int quota_getquota(struct super_block *sb, int type, qid_t id,
                             void __user *addr) *)
Definition quota_getquota (sb : super_block) (type id addr : Z) : M Z :=
  q <- deref (s_qcop sb) ;;
  match get_dqblk q with
  | None => ret (- ENOSYS)
  | Some f =>
      let qid := make_kqid E type id in
      if negb (qid_valid E qid) then ret (- EINVAL)
      else
        emit (EvGetDqblk (s_dev sb) qid) ;;
        let (r, fdq) := f qid in
        if negb (r =? 0) then ret r
        else
          let idq := copy_to_if_dqblk fdq in
          (* idq is an uninitialised local of which copy_to_if_dqblk
             sets every field; its four trailing padding bytes are
             copied out as they are *)
          c <- copy_to_user addr
                 (with_padding (to_bytes idq) (stack_pad E) 68 4) ;;
          if c =? 0 then ret 0 else ret (- EFAULT)
  end.

(* static int quota_setquota(struct super_block *sb, int type, qid_t id,
                             void __user *addr) *)
Definition quota_setquota (sb : super_block) (type id addr : Z) : M Z :=
  i <- get_struct addr ;;
  if negb (snd i =? 0) then ret (- EFAULT)
  else
    q <- deref (s_qcop sb) ;;
    match set_dqblk q with
    | None => ret (- ENOSYS)
    | Some f =>
        let qid := make_kqid E type id in
        if negb (qid_valid E qid) then ret (- EINVAL)
        else
          let fdq := copy_from_if_dqblk (stack_fdq E) (fst i) in
          emit (EvSetDqblk (s_dev sb) qid fdq) ;;
          ret (f qid fdq)
    end.

(* static int quota_setxstate(struct super_block *sb, int cmd, void __user *addr) *)
Definition quota_setxstate (sb : super_block) (cmd addr : Z) : M Z :=
  fl <- get_u32 addr ;;
  if negb (snd fl =? 0) then ret (- EFAULT)
  else
    q <- deref (s_qcop sb) ;;
    match set_xstate q with
    | None => ret (- ENOSYS)
    | Some f =>
        emit (EvSetXstate (s_dev sb) (fst fl) cmd) ;;
        ret (f (fst fl) cmd)
    end.

(* static int quota_getxstate(struct super_block *sb, void __user *addr) *)
Definition quota_getxstate (sb : super_block) (addr : Z) : M Z :=
  q <- deref (s_qcop sb) ;;
  match get_xstate q with
  | None => ret (- ENOSYS)
  | Some (r, fqs) =>
      emit (EvGetXstate (s_dev sb)) ;;
      if r =? 0 then
        c <- copy_to_user addr (firstn sizeof_fs_quota_stat fqs) ;;
        if c =? 0 then ret r else ret (- EFAULT)
      else ret r
  end.

(* static int quota_getxstatev(struct super_block *sb, void __user *addr) *)
Definition quota_getxstatev (sb : super_block) (addr : Z) : M Z :=
  q <- deref (s_qcop sb) ;;
  match get_xstatev q with
  | None => ret (- ENOSYS)
  | Some f =>
      (* memset(&fqs, 0, sizeof(fqs)); copy_from_user(&fqs, addr, 1) *)
      v <- copy_from_user addr 1 ;;
      if negb (snd v =? 0) then ret (- EFAULT)
      else
        let fqs : fs_quota_statv :=
          of_bytes (fst v ++ repeat 0 (sizeof (T := fs_quota_statv) - 1)) in
        if qs_version fqs =? FS_QSTATV_VERSION1 then
          emit (EvGetXstatev (s_dev sb) fqs) ;;
          let (r, fqs') := f fqs in
          if r =? 0 then
            c <- put_struct addr fqs' ;;
            if c =? 0 then ret r else ret (- EFAULT)
          else ret r
        else ret (- EINVAL)
  end.

(* static int quota_setxquota(struct super_block *sb, int type, qid_t id,
                              void __user *addr) *)
Definition quota_setxquota (sb : super_block) (type id addr : Z) : M Z :=
  d <- get_struct addr ;;
  if negb (snd d =? 0) then ret (- EFAULT)
  else
    q <- deref (s_qcop sb) ;;
    match set_dqblk q with
    | None => ret (- ENOSYS)
    | Some f =>
        let qid := make_kqid E type id in
        if negb (qid_valid E qid) then ret (- EINVAL)
        else
          emit (EvSetDqblk (s_dev sb) qid (fst d)) ;;
          ret (f qid (fst d))
    end.

(* static int quota_getxquota(struct super_block *sb, int type, qid_t id,
                              void __user *addr) *)
Definition quota_getxquota (sb : super_block) (type id addr : Z) : M Z :=
  q <- deref (s_qcop sb) ;;
  match get_dqblk q with
  | None => ret (- ENOSYS)
  | Some f =>
      let qid := make_kqid E type id in
      if negb (qid_valid E qid) then ret (- EINVAL)
      else
        emit (EvGetDqblk (s_dev sb) qid) ;;
        let (r, fdq) := f qid in
        if r =? 0 then
          c <- put_struct addr fdq ;;
          if c =? 0 then ret r else ret (- EFAULT)
        else ret r
  end.

(* static int quota_rmxquota(struct super_block *sb, void __user *addr) *)
Definition quota_rmxquota (sb : super_block) (addr : Z) : M Z :=
  fl <- get_u32 addr ;;
  if negb (snd fl =? 0) then ret (- EFAULT)
  else if negb (sb_has_rm_xquota sb) then ret (- ENOSYS)
  else
    q <- deref (s_qcop sb) ;;
    match rm_xquota q with
    | None => ret (- ENOSYS)
    | Some f =>
        emit (EvRmXquota (s_dev sb) (fst fl)) ;;
        ret (f (fst fl))
    end.

(* the switch of do_quotactl *)
Definition do_quotactl_switch (sb : super_block) (q : quotactl_ops)
    (type cmd id addr : Z) (path : path_ptr) : M Z :=
  if cmd =? Q_QUOTAON then quota_quotaon sb type cmd id path
  else if cmd =? Q_QUOTAOFF then
    match quota_off q with
    | None => ret (- ENOSYS)
    | Some f => emit (EvQuotaOff (s_dev sb) type) ;; ret (f type)
    end
  else if cmd =? Q_GETFMT then quota_getfmt sb type addr
  else if cmd =? Q_GETINFO then quota_getinfo sb type addr
  else if cmd =? Q_SETINFO then quota_setinfo sb type addr
  else if cmd =? Q_GETQUOTA then quota_getquota sb type id addr
  else if cmd =? Q_SETQUOTA then quota_setquota sb type id addr
  else if cmd =? Q_SYNC then
    match quota_sync q with
    | None => ret (- ENOSYS)
    | Some f => emit (EvQuotaSync (s_dev sb) type) ;; ret (f type)
    end
  else if (cmd =? Q_XQUOTAON) || (cmd =? Q_XQUOTAOFF) then
    quota_setxstate sb cmd addr
  else if cmd =? Q_XQUOTARM then quota_rmxquota sb addr
  else if cmd =? Q_XGETQSTAT then quota_getxstate sb addr
  else if cmd =? Q_XGETQSTATV then quota_getxstatev sb addr
  else if cmd =? Q_XSETQLIM then quota_setxquota sb type id addr
  else if cmd =? Q_XGETQUOTA then quota_getxquota sb type id addr
  else if cmd =? Q_XQUOTASYNC then
    if negb (Z.land (s_flags sb) MS_RDONLY =? 0) then ret (- EROFS)
    else
      (* XFS quotas are fully coherent now, making this call a noop *)
      ret 0
  else ret (- EINVAL).

(* the class bound that applies to a command *)
Definition max_quotas (cmd : Z) : Z :=
  if XQM_COMMAND cmd then XQM_MAXQUOTAS else MAXQUOTAS.

(* static int do_quotactl(struct super_block *sb, int type, int cmd,
                          qid_t id, void __user *addr, struct path *path) *)
Definition do_quotactl (sb : super_block) (type cmd id addr : Z)
    (path : path_ptr) : M Z :=
  if type >=? max_quotas cmd then ret (- EINVAL)
  else
    match s_qcop sb with
    | None => ret (- ENOSYS)
    | Some q =>
        r <- check_quotactl_permission sb type cmd id ;;
        if r <? 0 then ret r
        else do_quotactl_switch sb q type cmd id addr path
    end.

(* static int quotactl_cmd_write(int cmd) *)
Definition quotactl_cmd_write (cmd : Z) : bool :=
  if (cmd =? Q_GETFMT) || (cmd =? Q_GETINFO) || (cmd =? Q_SYNC) ||
     (cmd =? Q_XGETQSTAT) || (cmd =? Q_XGETQSTATV) || (cmd =? Q_XGETQUOTA) ||
     (cmd =? Q_XQUOTASYNC)
  then false
  else true.

(* static struct super_block *quotactl_block(const char __user *special,
                                             int cmd)
   with CONFIG_BLOCK; the result is an errno (ERR_PTR) or the pinned
   super block.  Waiting for a frozen filesystem to thaw inside
   get_super_thawed is not represented. *)
Definition quotactl_block (special cmd : Z) : M (Z + super_block) :=
  m <- get_user_mem ;;
  match getname E m special with
  | inl err => ret (inl err)
  | inr name =>
      match lookup_bdev E name with
      | inl err => ret (inl err)
      | inr bdev =>
          let thawed := quotactl_cmd_write cmd in
          match (if thawed then get_super_thawed E bdev
                 else get_super E bdev) with
          | None => ret (inl (- ENODEV))
          | Some sb => emit (EvGetSuper (s_dev sb) thawed) ;; ret (inr sb)
          end
      end
  end.

(* drop_super(sb) *)
Definition drop_super (sb : super_block) : M unit :=
  emit (EvDropSuper (s_dev sb)).

(** ** The legacy command layer (CONFIG_QUOTA_COMPAT) *)

(* the common frame of the cases that look up the super block themselves:
     sb = quotactl_block(special, cmds);
     ret = PTR_ERR(sb);
     if (IS_ERR(sb)) break;
     ... body, each break leaving with the current ret ...
     if (sb && !IS_ERR(sb)) drop_super(sb);
     return ret; *)
Definition with_super (special cmds : Z) (body : super_block -> M Z) : M Z :=
  r <- quotactl_block special cmds ;;
  match r with
  | inl err => ret err
  | inr sb => v <- body sb ;; drop_super sb ;; ret v
  end.

(* case QC_GETQUOTA *)
Definition compat_getquota (type id addr : Z) (sb : super_block) : M Z :=
  r <- check_quotactl_permission sb type Q_GETQUOTA id ;;
  if negb (r =? 0) then ret r
  else
    let qid := make_kqid E type id in
    if negb (qid_valid E qid) then ret (- EINVAL)
    else
      q <- deref (s_qcop sb) ;;
      f <- deref (get_dqblk q) ;;
      emit (EvGetDqblk (s_dev sb) qid) ;;
      let (r, fdq) := f qid in
      let idq := copy_to_if_dqblk fdq in
      if negb (r =? 0) then ret r
      else
        let cdq :=
          {| c_ihardlimit := u32 (d_ino_hardlimit fdq);
             c_isoftlimit := u32 (d_ino_softlimit fdq);
             c_curinodes := u32 (d_icount fdq);
             c_bhardlimit := u32 (d_blk_hardlimit fdq);
             c_bsoftlimit := u32 (d_blk_softlimit fdq);
             c_curspace := s64 (d_bcount fdq);
             c_btime := s64 (d_btimer fdq);
             c_itime := s64 (d_itimer fdq) |} in
        (* cdq is an uninitialised local set field by field: the four
           padding bytes before dqb_curspace are copied out as they are *)
        c <- copy_to_user addr
               (with_padding (to_bytes cdq) (stack_pad E) 20 4) ;;
        if c =? 0 then ret 0 else ret (- EFAULT).

(* case QC_SETQUOTA: case QC_SETUSE: case QC_SETQLIM *)
Definition compat_setquota (cmds type id addr : Z) (sb : super_block)
  : M Z :=
  r <- check_quotactl_permission sb type Q_GETQUOTA id ;;
  if negb (r =? 0) then ret r
  else
    c <- get_struct addr ;;
    if negb (snd c =? 0) then ret (- EFAULT)
    else
      let cdq : compat_dqblk := fst c in
      let qid := make_kqid E type id in
      if negb (qid_valid E qid) then ret (- EINVAL)
      else
        let valid := 0 in
        let valid :=
          if (cmds =? QC_SETQUOTA) || (cmds =? QC_SETQLIM)
          then Z.lor valid QIF_LIMITS else valid in
        let valid :=
          if (cmds =? QC_SETQUOTA) || (cmds =? QC_SETUSE)
          then Z.lor valid QIF_USAGE else valid in
        let idq :=
          {| dqb_ihardlimit := u64 (c_ihardlimit cdq);
             dqb_isoftlimit := u64 (c_isoftlimit cdq);
             dqb_curinodes := u64 (c_curinodes cdq);
             dqb_bhardlimit := u64 (c_bhardlimit cdq);
             dqb_bsoftlimit := u64 (c_bsoftlimit cdq);
             dqb_curspace := u64 (c_curspace cdq);
             dqb_btime := dqb_btime (stack_idq E);
             dqb_itime := dqb_itime (stack_idq E);
             dqb_valid := valid |} in
        let fdq := copy_from_if_dqblk (stack_fdq E) idq in
        q <- deref (s_qcop sb) ;;
        f <- deref (set_dqblk q) ;;
        emit (EvSetDqblk (s_dev sb) qid fdq) ;;
        ret (f qid fdq).

(* case QC_GETINFO *)
Definition compat_getinfo (type id addr : Z) (sb : super_block) : M Z :=
  r <- check_quotactl_permission sb type Q_GETQUOTA id ;;
  if negb (r =? 0) then ret r
  else
    q <- deref (s_qcop sb) ;;
    f <- deref (get_info q) ;;
    emit (EvGetInfo (s_dev sb) type) ;;
    let (r, iinf) := f type in
    if negb (r =? 0) then ret r
    else
      let flags := 0 in
      let flags :=
        if negb (Z.land (dqi_flags iinf) DQF_INFO_DIRTY =? 0)
        then Z.lor flags 0x0010 else flags in
      let cinf :=
        {| ci_bgrace := u32 (dqi_bgrace iinf);
           ci_igrace := u32 (dqi_igrace iinf);
           ci_flags := flags;
           ci_blocks := 0;
           ci_free_blk := 0;
           ci_free_entry := 0 |} in
      c <- put_struct addr cinf ;;
      if c =? 0 then ret 0 else ret (- EFAULT).

(* case QC_SETINFO: case QC_SETGRACE: case QC_SETFLAGS *)
Definition compat_setinfo (cmds type id addr : Z) (sb : super_block)
  : M Z :=
  r <- check_quotactl_permission sb type Q_GETQUOTA id ;;
  if negb (r =? 0) then ret r
  else
    c <- get_struct addr ;;
    if negb (snd c =? 0) then ret (- EFAULT)
    else
      let cinf : compat_dqinfo := fst c in
      let valid := 0 in
      let valid :=
        if (cmds =? QC_SETINFO) || (cmds =? QC_SETGRACE)
        then Z.lor valid (Z.lor IIF_BGRACE IIF_IGRACE) else valid in
      let valid :=
        if (cmds =? QC_SETINFO) || (cmds =? QC_SETFLAGS)
        then Z.lor valid IIF_FLAGS else valid in
      let iinf :=
        {| dqi_bgrace := u64 (ci_bgrace cinf);
           dqi_igrace := u64 (ci_igrace cinf);
           dqi_flags := u32 (ci_flags cinf);
           dqi_valid := valid |} in
      q <- deref (s_qcop sb) ;;
      f <- deref (set_info q) ;;
      emit (EvSetInfo (s_dev sb) type iinf) ;;
      ret (f type iinf).

(* case QC_GETSTATS *)
Definition compat_getstats (addr : Z) : M Z :=
  let stat := {| cs_counters := repeat 0 32;
                 cs_version := 6 * 10000 + 5 * 100 + 0 |} in
  c <- put_struct addr stat ;;
  if c =? 0 then ret 0 else ret (- EFAULT).

(* static long compat_quotactl(unsigned int cmds, unsigned int type,
       const char __user *special, qid_t id, void __user *addr)
   [sys_quotactl] is the system call it re-enters for the commands that
   only need a new command word. *)
Definition compat_quotactl (sys_quotactl : Z -> Z -> Z -> Z -> M Z)
    (cmds type special id addr : Z) : M Z :=
  if cmds =? QC_QUOTAON then
    sys_quotactl (QCMD Q_QUOTAON type) special id addr
  else if cmds =? QC_QUOTAOFF then
    sys_quotactl (QCMD Q_QUOTAOFF type) special id addr
  else if cmds =? QC_SYNC then
    sys_quotactl (QCMD Q_SYNC type) special id addr
  else if cmds =? QC_GETQUOTA then
    with_super special cmds (compat_getquota type id addr)
  else if (cmds =? QC_SETQUOTA) || (cmds =? QC_SETUSE) ||
          (cmds =? QC_SETQLIM) then
    with_super special cmds (compat_setquota cmds type id addr)
  else if cmds =? QC_GETINFO then
    with_super special cmds (compat_getinfo type id addr)
  else if (cmds =? QC_SETINFO) || (cmds =? QC_SETGRACE) ||
          (cmds =? QC_SETFLAGS) then
    with_super special cmds (compat_setinfo cmds type id addr)
  else if cmds =? QC_GETSTATS then compat_getstats addr
  else ret (- ENOSYS).

(** ** The system call *)

(* SYSCALL_DEFINE4(quotactl, ...) after the legacy commands have been
   handed to compat_quotactl *)
Definition quotactl_native (cmds type special id addr : Z) : M Z :=
  if special =? 0 then
    if cmds =? Q_SYNC then quota_sync_all type else ret (- ENODEV)
  else
    pathp <-
      (if cmds =? Q_QUOTAON then
         m <- get_user_mem ;;
         let (r, p) := user_path_at E m addr in
         if negb (r =? 0) then ret (PathErr r) else ret (PathOk p)
       else ret PathNull) ;;
    sb <- quotactl_block special cmds ;;
    r <- match sb with
         | inl err => ret err
         | inr sb =>
             r <- do_quotactl sb type cmds id addr pathp ;;
             drop_super sb ;;
             ret r
         end ;;
    match pathp with
    | PathOk p => emit (EvPathPut p) ;; ret r
    | _ => ret r
    end.

Definition is_compat_cmd (cmds : Z) : bool :=
  (cmds >=? 0x0100) && (cmds <? 0x3000).

(* the system call as compat_quotactl enters it: the command words it
   builds with QCMD are never legacy ones (see QCMD_not_compat below) *)
Definition sys_quotactl_reentered (cmd special id addr : Z) : M Z :=
  let cmds := Z.shiftr (u32 cmd) SUBCMDSHIFT in
  let type := Z.land (u32 cmd) SUBCMDMASK in
  quotactl_native cmds type special id addr.

(* SYSCALL_DEFINE4(quotactl, unsigned int, cmd, const char __user *, special,
                   qid_t, id, void __user *, addr) *)
Definition sys_quotactl (cmd special id addr : Z) : M Z :=
  let cmds := Z.shiftr (u32 cmd) SUBCMDSHIFT in
  let type := Z.land (u32 cmd) SUBCMDMASK in
  if is_compat_cmd cmds then
    compat_quotactl sys_quotactl_reentered cmds type special id addr
  else quotactl_native cmds type special id addr.

End Dispatcher.

(** ** Vocabulary of the specification *)

(* basicFromExtended(extendedFromBasic(r).record); [dst] is what the
   extended record held before the translation wrote to it *)
Definition round_trip (dst : fs_disk_quota) (r : if_dqblk) : if_dqblk :=
  copy_to_if_dqblk (copy_from_if_dqblk dst r).

(* the limits and the usage counts of two basic records agree *)
Definition same_limits_and_usage (a b : if_dqblk) : Prop :=
  dqb_bhardlimit a = dqb_bhardlimit b /\
  dqb_bsoftlimit a = dqb_bsoftlimit b /\
  dqb_curspace a = dqb_curspace b /\
  dqb_ihardlimit a = dqb_ihardlimit b /\
  dqb_isoftlimit a = dqb_isoftlimit b /\
  dqb_curinodes a = dqb_curinodes b.

(* the two grace timers agree *)
Definition same_timers (a b : if_dqblk) : Prop :=
  dqb_btime a = dqb_btime b /\ dqb_itime a = dqb_itime b.

(* a __u64 time that the __s32 timer of the extended record gives back
   unchanged *)
Definition timer_survives (t : Z) : Prop :=
  t < 2 ^ 31 \/ 2 ^ 64 - 2 ^ 31 <= t.

(* the validity bit [bit] is set in [valid] *)
Definition has_bit (valid bit : Z) : bool := Z.testbit valid (Z.log2 bit).

(* bit [n] of the field mask, read off the mapping table of the
   specification *)
Definition spec_fieldmask_bit (valid : Z) (n : Z) : bool :=
  (has_bit valid QIF_BLIMITS &&
     (Z.testbit FS_DQ_BSOFT n || Z.testbit FS_DQ_BHARD n)) ||
  (has_bit valid QIF_SPACE && Z.testbit FS_DQ_BCOUNT n) ||
  (has_bit valid QIF_ILIMITS &&
     (Z.testbit FS_DQ_ISOFT n || Z.testbit FS_DQ_IHARD n)) ||
  (has_bit valid QIF_INODES && Z.testbit FS_DQ_ICOUNT n) ||
  (has_bit valid QIF_BTIME && Z.testbit FS_DQ_BTIMER n) ||
  (has_bit valid QIF_ITIME && Z.testbit FS_DQ_ITIMER n).

(* a basic record whose block timer does not fit the extended record *)
Definition late_timer_record : if_dqblk :=
  {| dqb_bhardlimit := 100; dqb_bsoftlimit := 80; dqb_curspace := 10;
     dqb_ihardlimit := 50; dqb_isoftlimit := 40; dqb_curinodes := 5;
     dqb_btime := 2 ^ 31; dqb_itime := 0;
     dqb_valid := QIF_BLIMITS |}.

Definition sample_record : if_dqblk :=
  {| dqb_bhardlimit := 100; dqb_bsoftlimit := 80; dqb_curspace := 10;
     dqb_ihardlimit := 50; dqb_isoftlimit := 40; dqb_curinodes := 5;
     dqb_btime := 1700000000; dqb_itime := 0;
     dqb_valid := QIF_BLIMITS |}.

Definition blank_fdq : fs_disk_quota :=
  {| d_fieldmask := 0; d_blk_hardlimit := 0; d_blk_softlimit := 0;
     d_ino_hardlimit := 0; d_ino_softlimit := 0; d_bcount := 0;
     d_icount := 0; d_itimer := 0; d_btimer := 0;
     d_other := repeat 0 54 |}.

(* the world after the actions [es] have been recorded *)
Definition add_log (w : world) (es : list event) : world :=
  {| w_user := w_user w; w_log := w_log w ++ es |}.

(* what a run returned, and what it recorded *)
Definition result_of {A} (o : outcome A) : option A :=
  match o with Ret a _ => Some a | Oops _ => None end.

Definition world_of {A} (o : outcome A) : world :=
  match o with Ret _ w => w | Oops w => w end.

Definition log_of {A} (o : outcome A) : list event := w_log (world_of o).

(** The permission rule in the words of the specification. *)

(* commands any caller may invoke: get-format, sync, get-info,
   get-extended-state, get-extended-state-versioned, extended-sync *)
Definition spec_unprivileged (cmd : Z) : bool :=
  existsb (Z.eqb cmd)
    [Q_GETFMT; Q_SYNC; Q_GETINFO; Q_XGETQSTAT; Q_XGETQSTATV; Q_XQUOTASYNC].

(* get-record and get-extended-limits *)
Definition spec_self_service (cmd : Z) : bool :=
  existsb (Z.eqb cmd) [Q_GETQUOTA; Q_XGETQUOTA].

(* the identity queried is the caller's own effective identity (user
   class) or one of the caller's effective groups (group class) *)
Definition queries_own_identity (E : kenv) (type id : Z) : Prop :=
  (type = USRQUOTA /\ make_kuid E id = current_euid E) \/
  (type = GRPQUOTA /\ in_egroup_p E (make_kgid E id) = true).

(* the built-in privilege decision *)
Definition privilege_grants (E : kenv) (type cmd id : Z) : bool :=
  spec_unprivileged cmd ||
  (spec_self_service cmd && owns_dquot E type id) ||
  capable E CAP_SYS_ADMIN.

(** Broadcast sync in the words of the specification. *)

Definition exposes_sync (sb : super_block) : bool :=
  match s_qcop sb with
  | Some q => match quota_sync q with Some _ => true | None => false end
  | None => false
  end.

(* one sync call for every mounted filesystem that exposes the
   capability, in mount-table order *)
Definition sync_calls (l : list super_block) (type : Z) : list event :=
  map (fun sb => EvQuotaSync (s_dev sb) type) (filter exposes_sync l).

(* the filesystem is mounted read-only *)
Definition sb_rdonly (sb : super_block) : bool :=
  negb (Z.land (s_flags sb) MS_RDONLY =? 0).

(* do_quotactl once the class index has passed validation: the test for
   a capability table, the permission check, the switch *)
Definition after_class_validation (E : kenv) (sb : super_block)
    (type cmd id addr : Z) (path : path_ptr) : M Z :=
  match s_qcop sb with
  | None => ret (- ENOSYS)
  | Some q =>
      r <- check_quotactl_permission E sb type cmd id ;;
      if r <? 0 then ret r
      else do_quotactl_switch E sb q type cmd id addr path
  end.

(* the extended (XQM) command family and the generic one *)
Definition xqm_family : list Z :=
  [Q_XSETQLIM; Q_XGETQUOTA; Q_XQUOTAON; Q_XQUOTAOFF; Q_XGETQSTAT;
   Q_XGETQSTATV; Q_XQUOTARM; Q_XQUOTASYNC].

Definition generic_family : list Z :=
  [Q_SYNC; Q_QUOTAON; Q_QUOTAOFF; Q_GETFMT; Q_GETINFO; Q_SETINFO;
   Q_GETQUOTA; Q_SETQUOTA].

(* the legacy set commands, each with the primary opcode it stands for *)
Definition legacy_set_commands : list (Z * Z) :=
  [(QC_SETQUOTA, Q_SETQUOTA); (QC_SETUSE, Q_SETQUOTA);
   (QC_SETQLIM, Q_SETQUOTA); (QC_SETINFO, Q_SETINFO);
   (QC_SETGRACE, Q_SETINFO); (QC_SETFLAGS, Q_SETINFO)].

(** ** Sample kernels *)

Definition EACCES : Z := 13.
Definition ENOENT : Z := 2.
Definition EIO : Z := 5.

(* a filesystem that implements every operation; they all succeed *)
Definition full_ops : quotactl_ops :=
  {| quota_on := Some (fun _ _ _ => 0);
     quota_on_meta := Some (fun _ _ => 0);
     quota_off := Some (fun _ => 0);
     quota_sync := Some (fun _ => 0);
     get_info := Some (fun _ => (0, {| dqi_bgrace := 604800;
                                       dqi_igrace := 604800;
                                       dqi_flags := 0; dqi_valid := 7 |}));
     set_info := Some (fun _ _ => 0);
     get_dqblk := Some (fun _ => (0, blank_fdq));
     set_dqblk := Some (fun _ _ => 0);
     get_xstate := Some (0, repeat 0 80);
     get_xstatev := Some (fun fqs => (0, fqs));
     set_xstate := Some (fun _ _ => 0);
     rm_xquota := Some (fun _ => 0) |}.

(* a filesystem whose only operation is a sync that fails *)
Definition sync_only_ops : quotactl_ops :=
  {| quota_on := None; quota_on_meta := None; quota_off := None;
     quota_sync := Some (fun _ => - EIO);
     get_info := None; set_info := None; get_dqblk := None;
     set_dqblk := None; get_xstate := None; get_xstatev := None;
     set_xstate := None; rm_xquota := None |}.

(* a filesystem with the path-based enable only *)
Definition path_on_ops : quotactl_ops :=
  {| quota_on := Some (fun _ _ _ => 0);
     quota_on_meta := None; quota_off := None; quota_sync := None;
     get_info := None; set_info := None; get_dqblk := None;
     set_dqblk := None; get_xstate := None; get_xstatev := None;
     set_xstate := None; rm_xquota := None |}.

Definition mk_sb (dev flags : Z) (q : option quotactl_ops) : super_block :=
  {| s_dev := dev; s_flags := flags; s_qcop := q;
     sb_has_quota_active := fun _ => true;
     sb_fmt_id := fun _ => 2;
     sb_has_rm_xquota := true |}.

Definition sb_full : super_block := mk_sb 8 0 (Some full_ops).
Definition sb_rdonly_full : super_block := mk_sb 9 MS_RDONLY (Some full_ops).
Definition sb_sync_only : super_block := mk_sb 10 0 (Some sync_only_ops).
Definition sb_no_quota : super_block := mk_sb 11 0 None.
Definition sb_path_on : super_block := mk_sb 12 0 (Some path_on_ops).

(* a kernel in the initial user namespace with four mounts; the caller
   has effective uid [euid], is in group 100, and is an administrator
   when [admin]; the security module answers [hook] to every request *)
Definition sample_kernel (euid : Z) (admin : bool) (hook : Z) : kenv :=
  {| current_euid := euid;
     in_egroup_p := fun g => g =? 100;
     capable := fun _ => admin;
     make_kuid := fun id => id;
     make_kgid := fun id => id;
     make_kqid := fun type id => {| kq_type := type; kq_id := id |};
     qid_valid := fun q => negb (kq_id q =? 2 ^ 32 - 1);
     security_quotactl := fun _ _ _ _ => hook;
     supers := [sb_full; sb_no_quota; sb_sync_only; sb_path_on];
     getname := fun _ _ => inr [47];
     lookup_bdev := fun _ => inr 8;
     get_super := fun _ => Some sb_full;
     get_super_thawed := fun _ => Some sb_full;
     user_path_at := fun _ _ => (0, 1);
     stack_fdq := blank_fdq;
     stack_idq := sample_record;
     stack_pad := repeat 170 8 |}.

(* an ordinary user, uid 1000, security module permitting *)
Definition user_kernel : kenv := sample_kernel 1000 false 0.
(* the same user under a security module that refuses *)
Definition user_kernel_refused : kenv := sample_kernel 1000 false (- EACCES).
(* an administrator *)
Definition admin_kernel : kenv := sample_kernel 0 true 0.

(* a world whose user memory is mapped everywhere and holds [b] in every
   byte; nothing recorded yet *)
Definition world_of_bytes (b : Z) : world :=
  {| w_user := fun _ => Some b; w_log := [] |}.

Definition w0 : world := world_of_bytes 0.

(* the fields of an extended record that the translators touch hold
   values of their C types *)
Record fs_disk_quota_wf (d : fs_disk_quota) : Prop := {
  wf_d_blk_hardlimit : is_u64 (d_blk_hardlimit d);
  wf_d_blk_softlimit : is_u64 (d_blk_softlimit d);
  wf_d_ino_hardlimit : is_u64 (d_ino_hardlimit d);
  wf_d_ino_softlimit : is_u64 (d_ino_softlimit d);
  wf_d_bcount : is_u64 (d_bcount d);
  wf_d_icount : is_u64 (d_icount d);
  wf_d_itimer : - 2 ^ 31 <= d_itimer d < 2 ^ 31;
  wf_d_btimer : - 2 ^ 31 <= d_btimer d < 2 ^ 31
}.

(* the eight fields a basic record can carry, as field mask *)
Definition FS_DQ_BASIC_FIELDS : Z :=
  fold_right Z.lor 0
    [FS_DQ_ISOFT; FS_DQ_IHARD; FS_DQ_BSOFT; FS_DQ_BHARD; FS_DQ_BTIMER;
     FS_DQ_ITIMER; FS_DQ_BCOUNT; FS_DQ_ICOUNT].

(* the request quota_getxstatev hands to the filesystem: the version and
   zeros *)
Definition statv_request : fs_quota_statv :=
  {| qs_version := FS_QSTATV_VERSION1;
     qs_rest := repeat 0 (sizeof (T := fs_quota_statv) - 1) |}.

(* an extended record with a negative timer *)
Definition sample_fdq : fs_disk_quota :=
  {| d_fieldmask := 0; d_blk_hardlimit := 2 ^ 40; d_blk_softlimit := 7;
     d_ino_hardlimit := 9; d_ino_softlimit := 8; d_bcount := 2 ^ 63;
     d_icount := 3; d_itimer := -1; d_btimer := 1700000000;
     d_other := repeat 1 54 |}.

(* a filesystem whose get operations fail *)
Definition failing_get_ops : quotactl_ops :=
  {| quota_on := None; quota_on_meta := None; quota_off := None;
     quota_sync := None;
     get_info := Some (fun _ => (- EIO, {| dqi_bgrace := 0; dqi_igrace := 0;
                                           dqi_flags := 0; dqi_valid := 0 |}));
     set_info := None;
     get_dqblk := Some (fun _ => (- ESRCH, blank_fdq));
     set_dqblk := None;
     get_xstate := Some (- EIO, repeat 0 80);
     get_xstatev := Some (fun fqs => (- EIO, fqs));
     set_xstate := None; rm_xquota := None |}.

(** ** Frames of a run

    What a computation may do, whatever world it starts in. *)

(* it comes back: no NULL pointer is followed *)
Definition returns {A} (c : M A) : Prop :=
  forall w, exists a w', c w = Ret a w'.

(* everything it records satisfies [ok] *)
Definition records {A} (ok : event -> bool) (c : M A) : Prop :=
  forall w, exists es,
    forallb ok es = true /\ w_log (world_of (c w)) = w_log w ++ es.

(* it does not write to user memory *)
Definition keeps_user_memory {A} (c : M A) : Prop :=
  forall w, w_user (world_of (c w)) = w_user w.

(* the calls do_quotactl may make: the security hook and the operations
   of the filesystem *)
Definition is_dispatch_event (e : event) : bool :=
  is_security_call e || is_qcop_call e.

(* the super blocks pinned, the super blocks released and the paths
   released by a sequence of actions, in order *)
Fixpoint pinned (es : list event) : list Z :=
  match es with
  | [] => []
  | EvGetSuper dev _ :: es' => dev :: pinned es'
  | _ :: es' => pinned es'
  end.

Fixpoint released (es : list event) : list Z :=
  match es with
  | [] => []
  | EvDropSuper dev :: es' => dev :: released es'
  | _ :: es' => released es'
  end.

Fixpoint path_puts (es : list event) : list Z :=
  match es with
  | [] => []
  | EvPathPut p :: es' => p :: path_puts es'
  | _ :: es' => path_puts es'
  end.

(* the path that the system call resolves for Q_QUOTAON *)
Definition resolved_path (E : kenv) (cmds addr : Z) (w : world) : path_ptr :=
  if cmds =? Q_QUOTAON then
    if fst (user_path_at E (w_user w) addr) =? 0
    then PathOk (snd (user_path_at E (w_user w) addr))
    else PathErr (fst (user_path_at E (w_user w) addr))
  else PathNull.

(* the paths to release at the end of the system call *)
Definition paths_to_put (p : path_ptr) : list Z :=
  match p with PathOk p => [p] | _ => [] end.

(* the command word and the class index the system call unpacks *)
Definition cmds_of (cmd : Z) : Z := Z.shiftr (u32 cmd) SUBCMDSHIFT.
Definition type_of (cmd : Z) : Z := Z.land (u32 cmd) SUBCMDMASK.

(* the legacy commands that only rename a primary command *)
Definition legacy_renamed_commands : list (Z * Z) :=
  [(QC_QUOTAON, Q_QUOTAON); (QC_QUOTAOFF, Q_QUOTAOFF); (QC_SYNC, Q_SYNC)].

(* the field mask each legacy set command asks for *)
Definition FS_DQ_LIMITS : Z :=
  fold_right Z.lor 0 [FS_DQ_ISOFT; FS_DQ_IHARD; FS_DQ_BSOFT; FS_DQ_BHARD].
Definition FS_DQ_COUNTS : Z := Z.lor FS_DQ_BCOUNT FS_DQ_ICOUNT.
Definition FS_DQ_TIMERS : Z := Z.lor FS_DQ_BTIMER FS_DQ_ITIMER.

Definition legacy_field_mask (cmds : Z) : Z :=
  if cmds =? QC_SETQLIM then FS_DQ_LIMITS
  else if cmds =? QC_SETUSE then FS_DQ_COUNTS
  else Z.lor FS_DQ_LIMITS FS_DQ_COUNTS.

(* it records nothing *)
Definition quiet {A} (c : M A) : Prop := records (fun _ => false) c.

(* it calls the filesystem at most once, and records nothing else *)
Definition calls_once {A} (c : M A) : Prop :=
  forall w, exists es,
    forallb is_qcop_call es = true /\ (length es <= 1)%nat /\
    w_log (world_of (c w)) = w_log w ++ es.

(* the validity mask each legacy info command asks for *)
Definition legacy_info_valid (cmds : Z) : Z :=
  if cmds =? QC_SETGRACE then Z.lor IIF_BGRACE IIF_IGRACE
  else if cmds =? QC_SETFLAGS then IIF_FLAGS
  else Z.lor (Z.lor IIF_BGRACE IIF_IGRACE) IIF_FLAGS.

(* it leaves user memory outside [addr, addr + n) as it was *)
Definition writes_within {A} (addr n : Z) (c : M A) : Prop :=
  forall w x, x < addr \/ addr + n <= x ->
              w_user (world_of (c w)) x = w_user w x.

(* the [n] bytes from [addr] on are mapped *)
Definition mapped (m : umem) (addr n : Z) : Prop :=
  forall i, addr <= i < addr + n -> m i <> None.


(* the sixteen commands do_quotactl knows *)
Definition known_commands : list Z := generic_family ++ xqm_family.

(* the commands whose handler only reads the caller's buffer, or does
   not touch it *)
Definition set_commands : list Z :=
  [Q_QUOTAON; Q_QUOTAOFF; Q_SETINFO; Q_SETQUOTA; Q_SYNC; Q_XQUOTAON;
   Q_XQUOTAOFF; Q_XQUOTARM; Q_XSETQLIM; Q_XQUOTASYNC].

(* write a disjunction of bit tests as the test of one mask *)
Ltac fold_lor n :=
  repeat rewrite ?orb_false_r, ?orb_false_l;
  repeat rewrite <- Z.lor_spec;
  try rewrite <- (Z.testbit_0_l n).

(** * Properties *)

Module CIntFacts.

Lemma u64_id z : is_u64 z -> u64 z = z.
Proof. intros H. apply Z.mod_small. exact H. Qed.

Lemma u64_range z : is_u64 (u64 z).
Proof. apply Z.mod_pos_bound. reflexivity. Qed.

(* sign extension of a 32-bit value to 64 bits leaves exactly the values
   below 2^31 and the top 2^31 values unchanged *)
Lemma u64_s32_fix t : is_u64 t -> (u64 (s32 t) = t <-> timer_survives t).
Proof.
  unfold is_u64, u64, s32, sint, timer_survives.
  change (2 ^ (32 - 1)) with 2147483648.
  change (2 ^ 31) with 2147483648.
  change (2 ^ 32) with 4294967296.
  change (2 ^ 64) with 18446744073709551616.
  intros Ht.
  pose proof (Z.mod_pos_bound t 4294967296 eq_refl) as Hm.
  pose proof (Z.div_mod t 4294967296 ltac:(lia)) as Hd.
  remember (t / 4294967296) as q eqn:Hq. clear Hq.
  remember (t mod 4294967296) as m eqn:Hmm. clear Hmm.
  destruct (Z.ltb_spec m 2147483648) as [Hlt | Hge].
  - rewrite (Z.mod_small m) by lia. lia.
  - replace ((m - 4294967296) mod 18446744073709551616)
      with (m - 4294967296 + 18446744073709551616)
      by (apply Z.mod_unique with (q := -1); lia).
    lia.
Qed.

(* a test against a single bit of a mask *)
Lemma land_pow2_test v k :
  0 <= k -> (Z.land v (2 ^ k) =? 0) = negb (Z.testbit v k).
Proof.
  intros Hk.
  destruct (Z.testbit v k) eqn:Hb; simpl.
  - apply Z.eqb_neq. intros H0.
    assert (Hc : Z.testbit (Z.land v (2 ^ k)) k = true).
    { rewrite Z.land_spec, Hb, Z.pow2_bits_true by lia. reflexivity. }
    rewrite H0, Z.bits_0 in Hc. discriminate.
  - apply Z.eqb_eq. apply Z.bits_inj'. intros n Hn.
    rewrite Z.land_spec, Z.bits_0.
    destruct (Z.eq_dec n k) as [-> | Hne].
    + rewrite Hb. reflexivity.
    + rewrite Z.pow2_bits_false by lia. apply andb_false_r.
Qed.

End CIntFacts.
Import CIntFacts.

(** ** Structure translator *)

Lemma sample_record_wf : if_dqblk_wf sample_record.
Proof.
  constructor; vm_compute; split; congruence.
Qed.

Lemma late_timer_record_wf : if_dqblk_wf late_timer_record.
Proof.
  constructor; vm_compute; split; congruence.
Qed.

(** C4, as stated, fails: a well-formed basic record whose block grace
    timer is 2^31 comes back from the round trip with a different block
    grace timer (2^64 - 2^31), because the extended record stores the
    timer in a signed 32-bit field. *)
Lemma round_trip_changes_late_timer :
  if_dqblk_wf late_timer_record /\
  dqb_btime late_timer_record = 2 ^ 31 /\
  dqb_btime (round_trip blank_fdq late_timer_record) = 2 ^ 64 - 2 ^ 31 /\
  ~ same_timers (round_trip blank_fdq late_timer_record) late_timer_record.
Proof.
  split; [exact late_timer_record_wf |].
  split; [reflexivity |].
  split; [vm_compute; reflexivity |].
  intros [H _]. vm_compute in H. discriminate H.
Qed.

(** C4 (amended): for every basic record r with fields of their C types,
    the round trip through the extended record returns a record whose
    three limits-and-usage pairs (hard/soft block limit, block usage,
    hard/soft inode limit, inode usage) equal those of r and whose validity
    mask is QIF_ALL whatever r's mask was; each grace timer comes back
    equal exactly when it survives the signed 32-bit timer field of the
    extended record, in particular whenever it is below 2^31. *)
Theorem round_trip_fields (dst : fs_disk_quota) (r : if_dqblk) :
  if_dqblk_wf r ->
  same_limits_and_usage (round_trip dst r) r /\
  dqb_valid (round_trip dst r) = QIF_ALL /\
  (dqb_btime (round_trip dst r) = dqb_btime r <-> timer_survives (dqb_btime r)) /\
  (dqb_itime (round_trip dst r) = dqb_itime r <-> timer_survives (dqb_itime r)) /\
  (dqb_btime r < 2 ^ 31 -> dqb_itime r < 2 ^ 31 ->
   same_timers (round_trip dst r) r).
Proof.
  intros [Hbh Hbs Hcs Hih His Hci Hbt Hit _].
  unfold round_trip, copy_to_if_dqblk, copy_from_if_dqblk,
    same_limits_and_usage, same_timers; cbn.
  rewrite !(u64_id (u64 _)) by apply u64_range.
  rewrite !u64_id by assumption.
  pose proof (u64_s32_fix _ Hbt) as Fb.
  pose proof (u64_s32_fix _ Hit) as Fi.
  unfold timer_survives in *.
  intuition.
Qed.

Lemma round_trip_fields_witness :
  if_dqblk_wf sample_record /\
  same_limits_and_usage (round_trip blank_fdq sample_record) sample_record /\
  dqb_valid (round_trip blank_fdq sample_record) = QIF_ALL.
Proof.
  pose proof (round_trip_fields blank_fdq sample_record sample_record_wf)
    as [H1 [H2 _]].
  split; [exact sample_record_wf |].
  split; [exact H1 | exact H2].
Defined.

(* the six tests of copy_from_if_dqblk read single bits *)
Lemma valid_test v bit k :
  bit = 2 ^ k -> 0 <= k -> (Z.land v bit =? 0) = negb (has_bit v bit).
Proof.
  intros -> Hk. unfold has_bit.
  rewrite Z.log2_pow2 by assumption.
  apply land_pow2_test; assumption.
Qed.

(** C5: for every basic record, bit n of the field mask that
    copy_from_if_dqblk leaves in the extended record is set exactly when
    the mapping table says so: QIF_BLIMITS gives FS_DQ_BSOFT and
    FS_DQ_BHARD, QIF_SPACE gives FS_DQ_BCOUNT, QIF_ILIMITS gives
    FS_DQ_ISOFT and FS_DQ_IHARD, QIF_INODES gives FS_DQ_ICOUNT, QIF_BTIME
    gives FS_DQ_BTIMER and QIF_ITIME gives FS_DQ_ITIMER; every other bit is
    clear. *)
Theorem fieldmask_mapping (dst : fs_disk_quota) (r : if_dqblk) (n : Z) :
  Z.testbit (d_fieldmask (copy_from_if_dqblk dst r)) n =
  spec_fieldmask_bit (dqb_valid r) n.
Proof.
  cbn [copy_from_if_dqblk d_fieldmask].
  generalize (dqb_valid r) as v. intros v.
  unfold fieldmask_of_valid, or_if, spec_fieldmask_bit.
  rewrite (valid_test v QIF_BLIMITS 0), (valid_test v QIF_SPACE 1),
    (valid_test v QIF_ILIMITS 2), (valid_test v QIF_INODES 3),
    (valid_test v QIF_BTIME 4), (valid_test v QIF_ITIME 5)
    by (reflexivity || lia).
  destruct (has_bit v QIF_BLIMITS), (has_bit v QIF_SPACE),
    (has_bit v QIF_ILIMITS), (has_bit v QIF_INODES),
    (has_bit v QIF_BTIME), (has_bit v QIF_ITIME);
    cbn [negb andb orb]; fold_lor n; reflexivity.
Qed.

(** ** Permission checker *)

Section Permission.

Variable E : kenv.

Lemma owns_dquot_spec type id :
  owns_dquot E type id = true <-> queries_own_identity E type id.
Proof.
  unfold owns_dquot, queries_own_identity, uid_eq.
  rewrite orb_true_iff, !andb_true_iff, !Z.eqb_eq.
  intuition congruence.
Qed.

(* the switch of check_quotactl_permission returns -EPERM out of its
   default arm exactly when the privilege decision of the specification
   denies, and otherwise falls out of the switch *)
Lemma permission_switch_spec type cmd id :
  permission_switch E type cmd id =
  if privilege_grants E type cmd id then None else Some (- EPERM).
Proof.
  unfold permission_switch, permission_default, privilege_grants,
    spec_unprivileged, spec_self_service.
  cbn [existsb].
  destruct (cmd =? Q_GETFMT), (cmd =? Q_SYNC), (cmd =? Q_GETINFO),
    (cmd =? Q_XGETQSTAT), (cmd =? Q_XGETQSTATV), (cmd =? Q_XQUOTASYNC);
    cbn [orb andb]; try reflexivity.
  destruct (cmd =? Q_GETQUOTA), (cmd =? Q_XGETQUOTA),
    (owns_dquot E type id), (capable E CAP_SYS_ADMIN); reflexivity.
Qed.

(* one run of the permission check *)
Lemma check_quotactl_permission_run (sb : super_block) (type cmd id : Z)
    (w : world) :
  check_quotactl_permission E sb type cmd id w =
  if privilege_grants E type cmd id
  then Ret (security_quotactl E cmd type (s32 id) (Some sb))
           (add_log w [EvSecurity cmd type (s32 id) (Some (s_dev sb))])
  else Ret (- EPERM) w.
Proof.
  unfold check_quotactl_permission.
  rewrite permission_switch_spec.
  destruct (privilege_grants E type cmd id); reflexivity.
Qed.

(** C3 (amended): for every command, class, identity and caller, the
    security hook is consulted exactly when the built-in privilege
    decision grants, once and after that decision, and its answer is then
    the result of the check, so a denial by the hook is terminal; when the
    privilege decision denies, the check returns -EPERM and the hook is
    not consulted. *)
Theorem hook_after_privilege (sb : super_block) (type cmd id : Z) (w : world) :
  check_quotactl_permission E sb type cmd id w =
  if privilege_grants E type cmd id
  then Ret (security_quotactl E cmd type (s32 id) (Some sb))
           (add_log w [EvSecurity cmd type (s32 id) (Some (s_dev sb))])
  else Ret (- EPERM) w.
Proof.
  unfold check_quotactl_permission.
  rewrite permission_switch_spec.
  destruct (privilege_grants E type cmd id); reflexivity.
Qed.

(** C2 (amended): for every caller without CAP_SYS_ADMIN and for the
    commands Q_GETQUOTA and Q_XGETQUOTA, a query that is not for the
    caller's own identity returns -EPERM without consulting the security
    hook; a query for the caller's own effective uid (user class) or one
    of the caller's effective groups (group class) consults the hook and
    returns its answer.  Hence, when the hook permits, the check succeeds
    if and only if the caller queries its own identity. *)
Theorem self_service_rule (sb : super_block) (type cmd id : Z) (w : world) :
  capable E CAP_SYS_ADMIN = false ->
  cmd = Q_GETQUOTA \/ cmd = Q_XGETQUOTA ->
  (~ queries_own_identity E type id ->
   check_quotactl_permission E sb type cmd id w = Ret (- EPERM) w) /\
  (queries_own_identity E type id ->
   check_quotactl_permission E sb type cmd id w =
   Ret (security_quotactl E cmd type (s32 id) (Some sb))
       (add_log w [EvSecurity cmd type (s32 id) (Some (s_dev sb))])) /\
  (security_quotactl E cmd type (s32 id) (Some sb) = 0 ->
   (result_of (check_quotactl_permission E sb type cmd id w) = Some 0 <->
    queries_own_identity E type id)).
Proof.
  intros Hcap Hcmd.
  rewrite check_quotactl_permission_run.
  assert (Hp : privilege_grants E type cmd id = owns_dquot E type id).
  { unfold privilege_grants. rewrite Hcap.
    destruct Hcmd as [-> | ->]; cbn; rewrite orb_false_r; reflexivity. }
  rewrite Hp.
  pose proof (owns_dquot_spec type id) as Ho.
  destruct (owns_dquot E type id).
  - split; [intros Hn; exfalso; apply Hn, Ho; reflexivity |].
    split; [reflexivity |].
    intros ->. cbn. split; [intros _; apply Ho; reflexivity | reflexivity].
  - split; [reflexivity |].
    split; [intros Hq; apply Ho in Hq; discriminate Hq |].
    intros _. cbn.
    split; [intros H; inversion H | intros Hq; apply Ho in Hq; discriminate Hq].
Qed.

End Permission.

(** C3, as stated, fails: an ordinary user asks for Q_SETQUOTA; the
    privilege decision denies, the check returns -EPERM and the security
    hook has not been consulted. *)
Lemma hook_skipped_on_privilege_denial :
  check_quotactl_permission user_kernel sb_full USRQUOTA Q_SETQUOTA 1000 w0
    = Ret (- EPERM) w0 /\
  existsb is_security_call
    (log_of (check_quotactl_permission user_kernel sb_full USRQUOTA
               Q_SETQUOTA 1000 w0)) = false.
Proof.
  split; reflexivity.
Qed.

(** C2, as stated, fails: an ordinary user (uid 1000, no CAP_SYS_ADMIN)
    queries its own record with Q_GETQUOTA, and the check does not succeed
    because the security hook refuses; it returns the hook's -EACCES. *)
Lemma own_query_refused_by_hook :
  capable user_kernel_refused CAP_SYS_ADMIN = false /\
  queries_own_identity user_kernel_refused USRQUOTA 1000 /\
  result_of (check_quotactl_permission user_kernel_refused sb_full
               USRQUOTA Q_GETQUOTA 1000 w0) = Some (- EACCES).
Proof.
  split; [reflexivity |].
  split; [left; split; reflexivity | reflexivity].
Qed.

Lemma self_service_rule_witness :
  capable user_kernel CAP_SYS_ADMIN = false /\
  (Q_GETQUOTA = Q_GETQUOTA \/ Q_GETQUOTA = Q_XGETQUOTA) /\
  queries_own_identity user_kernel USRQUOTA 1000 /\
  ~ queries_own_identity user_kernel USRQUOTA 1001 /\
  result_of (check_quotactl_permission user_kernel sb_full USRQUOTA
               Q_GETQUOTA 1000 w0) = Some 0 /\
  check_quotactl_permission user_kernel sb_full USRQUOTA Q_GETQUOTA 1001 w0
    = Ret (- EPERM) w0.
Proof.
  assert (Hown : queries_own_identity user_kernel USRQUOTA 1000)
    by (left; split; reflexivity).
  assert (Hother : ~ queries_own_identity user_kernel USRQUOTA 1001)
    by (intros [[_ H] | [H _]]; discriminate H).
  split; [reflexivity |].
  split; [left; reflexivity |].
  split; [exact Hown |].
  split; [exact Hother |].
  split.
  - apply (self_service_rule user_kernel sb_full USRQUOTA Q_GETQUOTA 1000 w0
             eq_refl (or_introl eq_refl)); [reflexivity | exact Hown].
  - apply (self_service_rule user_kernel sb_full USRQUOTA Q_GETQUOTA 1001 w0
             eq_refl (or_introl eq_refl)); exact Hother.
Defined.

(** ** Broadcast sync *)

Lemma add_log_nil w : add_log w [] = w.
Proof. destruct w. unfold add_log. cbn. rewrite app_nil_r. reflexivity. Qed.

Lemma add_log_app w es es' :
  add_log (add_log w es) es' = add_log w (es ++ es').
Proof. unfold add_log. cbn. rewrite app_assoc. reflexivity. Qed.

Lemma emit_run e w : emit e w = Ret tt (add_log w [e]).
Proof. reflexivity. Qed.

Lemma quota_sync_one_run sb type w :
  quota_sync_one sb type w =
  Ret tt (add_log w (if exposes_sync sb
                     then [EvQuotaSync (s_dev sb) type] else [])).
Proof.
  unfold quota_sync_one, exposes_sync.
  destruct (s_qcop sb) as [q |]; [destruct (quota_sync q) |];
    cbn; rewrite ?add_log_nil; reflexivity.
Qed.

(* walking the mount table records one sync per filesystem that exposes
   the operation and nothing else *)
Lemma iterate_over_sync l type :
  forall w, iterate_over l quota_sync_one type w =
            Ret tt (add_log w (sync_calls l type)).
Proof.
  induction l as [| sb l IH]; intros w.
  - cbn. rewrite add_log_nil. reflexivity.
  - cbn [iterate_over]. unfold bind. rewrite quota_sync_one_run, IH.
    rewrite add_log_app. unfold sync_calls. cbn [filter].
    destruct (exposes_sync sb); reflexivity.
Qed.

(** C8: a broadcast sync with class >= MAXQUOTAS returns -EINVAL and
    nothing is consulted or visited.  Otherwise the security hook is
    consulted once, for no particular filesystem; if it refuses, its
    answer is returned and no filesystem is visited; if it permits, the
    sync operation of every mounted filesystem that has one is called, in
    mount-table order, the others are skipped, and the result is success
    whatever the operations returned. *)
Theorem quota_sync_all_behaviour (E : kenv) (type : Z) (w : world) :
  (MAXQUOTAS <= type -> quota_sync_all E type w = Ret (- EINVAL) w) /\
  (type < MAXQUOTAS ->
   security_quotactl E Q_SYNC type 0 None <> 0 ->
   quota_sync_all E type w =
   Ret (security_quotactl E Q_SYNC type 0 None)
       (add_log w [EvSecurity Q_SYNC type 0 None])) /\
  (type < MAXQUOTAS ->
   security_quotactl E Q_SYNC type 0 None = 0 ->
   quota_sync_all E type w =
   Ret 0 (add_log w (EvSecurity Q_SYNC type 0 None
                       :: sync_calls (supers E) type))).
Proof.
  unfold quota_sync_all.
  destruct (Z.geb_spec type MAXQUOTAS) as [Hge | Hlt].
  - split; [reflexivity |]. split; intros; lia.
  - split; [intros; lia |].
    unfold call_security, bind, iterate_supers. rewrite emit_run.
    unfold ret. cbn [option_map]. change (s32 0) with 0.
    split; intros _ Hr.
    + apply Z.eqb_neq in Hr. rewrite Hr. reflexivity.
    + rewrite Hr. cbn [Z.eqb]. rewrite iterate_over_sync, add_log_app.
      reflexivity.
Qed.

Lemma quota_sync_all_behaviour_witness :
  (MAXQUOTAS <= 99 /\ quota_sync_all user_kernel 99 w0 = Ret (- EINVAL) w0) /\
  (0 < MAXQUOTAS /\
   security_quotactl user_kernel_refused Q_SYNC 0 0 None <> 0 /\
   quota_sync_all user_kernel_refused 0 w0 =
   Ret (- EACCES) (add_log w0 [EvSecurity Q_SYNC 0 0 None])) /\
  (0 < MAXQUOTAS /\
   security_quotactl user_kernel Q_SYNC 0 0 None = 0 /\
   quota_sync_all user_kernel 0 w0 =
   Ret 0 (add_log w0 [EvSecurity Q_SYNC 0 0 None;
                      EvQuotaSync 8 0; EvQuotaSync 10 0])).
Proof.
  assert (H99 : MAXQUOTAS <= 99) by (unfold MAXQUOTAS; lia).
  assert (H0 : 0 < MAXQUOTAS) by (unfold MAXQUOTAS; lia).
  assert (Hr : security_quotactl user_kernel_refused Q_SYNC 0 0 None <> 0)
    by (cbn; discriminate).
  split; [split; [exact H99 |] | split; [split; [exact H0 | split; [exact Hr |]]
                                        | split; [exact H0 | split; [reflexivity |]]]].
  - exact (proj1 (quota_sync_all_behaviour user_kernel 99 w0) H99).
  - exact (proj1 (proj2 (quota_sync_all_behaviour user_kernel_refused 0 w0))
             H0 Hr).
  - exact (proj2 (proj2 (quota_sync_all_behaviour user_kernel 0 w0))
             H0 eq_refl).
Defined.

(** ** Enabling quotas *)

(** C10: on a filesystem with a capability table, quota_quotaon returns
    -ENOSYS and calls nothing when the table has neither quota_on nor
    quota_on_meta; when it has quota_on_meta, that operation is called and
    its result returned whatever the path argument is, an unresolved path
    included; only when quota_on_meta is absent (and quota_on present) is
    the error carried by an unresolved path returned, without a call, and
    quota_on called on a resolved path. *)
Theorem quota_quotaon_behaviour (sb : super_block) (q : quotactl_ops)
    (type cmd id : Z) (path : path_ptr) (w : world) :
  s_qcop sb = Some q ->
  match quota_on_meta q, quota_on q with
  | None, None => quota_quotaon sb type cmd id path w = Ret (- ENOSYS) w
  | Some on_meta, _ =>
      quota_quotaon sb type cmd id path w =
      Ret (on_meta type (s32 id))
          (add_log w [EvQuotaOnMeta (s_dev sb) type (s32 id)])
  | None, Some on =>
      match path with
      | PathErr err => quota_quotaon sb type cmd id path w = Ret err w
      | _ => quota_quotaon sb type cmd id path w =
             Ret (on type (s32 id) path)
                 (add_log w [EvQuotaOn (s_dev sb) type (s32 id) path])
      end
  end.
Proof.
  intros Hq. unfold quota_quotaon, bind, deref. rewrite Hq.
  destruct (quota_on_meta q) as [on_meta |], (quota_on q) as [on |];
    try reflexivity.
  destruct path; reflexivity.
Qed.

Lemma quota_quotaon_behaviour_witness :
  s_qcop sb_full = Some full_ops /\
  quota_quotaon sb_full USRQUOTA Q_QUOTAON 0 (PathErr (- ENOENT)) w0 =
  Ret 0 (add_log w0 [EvQuotaOnMeta 8 USRQUOTA 0]).
Proof.
  split; [reflexivity |].
  exact (quota_quotaon_behaviour sb_full full_ops USRQUOTA Q_QUOTAON 0
           (PathErr (- ENOENT)) w0 eq_refl).
Defined.

(** ** Versioned extended state *)

(* the structure after memset and the one-byte copy: its version is the
   byte read, as a signed char *)
Lemma statv_version_probe b l :
  qs_version (of_bytes (T := fs_quota_statv) (b :: l)) = s8 b.
Proof.
  cbn [of_bytes wire_fs_quota_statv qs_version uint_at bytes_at skipn firstn
       of_le].
  f_equal. lia.
Qed.

Lemma read_one_byte m addr b :
  m addr = Some b -> read_bytes m addr 1 = ([b], 0).
Proof. intros H. cbn. rewrite H. reflexivity. Qed.

(** C7, as stated, fails: on a filesystem without the versioned-state
    operation a request with the unrecognised version 9 returns -ENOSYS,
    not -EINVAL. *)
Lemma unknown_version_without_capability :
  w_user (world_of_bytes 9) 4096 = Some 9 /\
  s8 9 <> FS_QSTATV_VERSION1 /\
  quota_getxstatev sb_sync_only 4096 (world_of_bytes 9) =
  Ret (- ENOSYS) (world_of_bytes 9).
Proof.
  split; [reflexivity |].
  split; [vm_compute; discriminate | reflexivity].
Qed.

(** C7 (amended): for every get-extended-state-versioned request whose
    version byte can be read and is not FS_QSTATV_VERSION1, on a
    filesystem that has the versioned-state operation quota_getxstatev
    returns -EINVAL, and on a filesystem without it -ENOSYS; in both cases
    the operation is not called and nothing is written to the caller's
    buffer: the world, user memory included, is the one before the
    call. *)
Theorem getxstatev_unknown_version (sb : super_block) (q : quotactl_ops)
    (addr b : Z) (w : world) :
  s_qcop sb = Some q ->
  w_user w addr = Some b ->
  s8 b <> FS_QSTATV_VERSION1 ->
  quota_getxstatev sb addr w =
  match get_xstatev q with
  | Some _ => Ret (- EINVAL) w
  | None => Ret (- ENOSYS) w
  end.
Proof.
  intros Hq Hb Hv. unfold quota_getxstatev, bind, deref. rewrite Hq.
  destruct (get_xstatev q) as [f |]; [| reflexivity].
  unfold copy_from_user. rewrite (read_one_byte _ _ _ Hb).
  cbn [snd fst Z.eqb negb app].
  rewrite statv_version_probe.
  apply Z.eqb_neq in Hv. rewrite Hv. reflexivity.
Qed.

Lemma getxstatev_unknown_version_witness :
  s_qcop sb_full = Some full_ops /\
  w_user (world_of_bytes 9) 4096 = Some 9 /\
  s8 9 <> FS_QSTATV_VERSION1 /\
  quota_getxstatev sb_full 4096 (world_of_bytes 9) =
  Ret (- EINVAL) (world_of_bytes 9).
Proof.
  assert (Hv : s8 9 <> FS_QSTATV_VERSION1) by (vm_compute; discriminate).
  split; [reflexivity |].
  split; [reflexivity |].
  split; [exact Hv |].
  exact (getxstatev_unknown_version sb_full full_ops 4096 9
           (world_of_bytes 9) eq_refl eq_refl Hv).
Defined.

(** ** Command dispatcher *)

(** C6: for every opcode and class index, do_quotactl returns -EINVAL
    with nothing consulted and nothing called (the world is unchanged)
    when the class index is at least the bound of the opcode's family,
    XQM_MAXQUOTAS for the XQM commands and MAXQUOTAS for all others; a
    class index below the bound goes on to the capability-table test and
    the permission check.  In particular the bound itself is rejected and
    the bound minus one passes. *)
Theorem class_validation (E : kenv) (sb : super_block)
    (type cmd id addr : Z) (path : path_ptr) (w : world) :
  (max_quotas cmd <= type ->
   do_quotactl E sb type cmd id addr path w = Ret (- EINVAL) w) /\
  (type < max_quotas cmd ->
   do_quotactl E sb type cmd id addr path w =
   after_class_validation E sb type cmd id addr path w) /\
  do_quotactl E sb (max_quotas cmd) cmd id addr path w = Ret (- EINVAL) w /\
  do_quotactl E sb (max_quotas cmd - 1) cmd id addr path w =
  after_class_validation E sb (max_quotas cmd - 1) cmd id addr path w /\
  Forall (fun c => max_quotas c = XQM_MAXQUOTAS) xqm_family /\
  Forall (fun c => max_quotas c = MAXQUOTAS) generic_family /\
  (max_quotas cmd = XQM_MAXQUOTAS \/ max_quotas cmd = MAXQUOTAS).
Proof.
  assert (Hrej : forall t, max_quotas cmd <= t ->
            do_quotactl E sb t cmd id addr path w = Ret (- EINVAL) w).
  { intros t Ht. unfold do_quotactl.
    destruct (Z.geb_spec t (max_quotas cmd)); [reflexivity | lia]. }
  assert (Hacc : forall t, t < max_quotas cmd ->
            do_quotactl E sb t cmd id addr path w =
            after_class_validation E sb t cmd id addr path w).
  { intros t Ht. unfold do_quotactl, after_class_validation.
    destruct (Z.geb_spec t (max_quotas cmd)); [lia | reflexivity]. }
  split; [apply Hrej |].
  split; [apply Hacc |].
  split; [apply Hrej; lia |].
  split; [apply Hacc; lia |].
  split; [repeat constructor |].
  split; [repeat constructor |].
  unfold max_quotas. destruct (XQM_COMMAND cmd); [left | right]; reflexivity.
Qed.

Lemma class_validation_witness :
  (max_quotas Q_XGETQUOTA <= 3 /\
   do_quotactl user_kernel sb_full 3 Q_XGETQUOTA 1000 8192 PathNull w0 =
   Ret (- EINVAL) w0) /\
  (1 < max_quotas Q_SYNC /\
   do_quotactl user_kernel sb_full 1 Q_SYNC 0 0 PathNull w0 =
   after_class_validation user_kernel sb_full 1 Q_SYNC 0 0 PathNull w0).
Proof.
  assert (H3 : max_quotas Q_XGETQUOTA <= 3) by (vm_compute; discriminate).
  assert (H1 : 1 < max_quotas Q_SYNC) by reflexivity.
  split; (split; [assumption |]).
  - exact (proj1 (class_validation user_kernel sb_full 3 Q_XGETQUOTA 1000
                    8192 PathNull w0) H3).
  - exact (proj1 (proj2 (class_validation user_kernel sb_full 1 Q_SYNC 0 0
                           PathNull w0)) H1).
Defined.

(** C9, as stated, fails: on a read-only filesystem an extended-sync
    request with class index 3 returns -EINVAL, and one with a valid
    class index that the security hook refuses returns the hook's
    -EACCES; neither returns -EROFS. *)
Lemma xquotasync_invalid_class_on_rdonly :
  sb_rdonly sb_rdonly_full = true /\
  do_quotactl user_kernel sb_rdonly_full 3 Q_XQUOTASYNC 0 0 PathNull w0 =
  Ret (- EINVAL) w0 /\
  result_of (do_quotactl user_kernel_refused sb_rdonly_full 0 Q_XQUOTASYNC
               0 0 PathNull w0) = Some (- EACCES) /\
  - EINVAL <> - EROFS /\ - EACCES <> - EROFS.
Proof.
  split; [reflexivity |].
  split; [reflexivity |].
  split; [reflexivity |].
  split; discriminate.
Qed.

(** C9 (amended): for every extended-sync request on a resolved target
    whose class index is below XQM_MAXQUOTAS, whose filesystem has a quota
    capability table and which the security hook does not refuse,
    do_quotactl returns -EROFS if the filesystem is mounted read-only and
    0 otherwise; the security hook is the only thing consulted, and no
    operation of the capability table is called.  A class index at or
    above XQM_MAXQUOTAS gives -EINVAL and a filesystem without a
    capability table -ENOSYS, both with nothing consulted; a refusal by
    the hook is returned as it is.  This holds whether or not the
    filesystem is read-only. *)
Theorem xquotasync_behaviour (E : kenv) (sb : super_block)
    (type id addr : Z) (path : path_ptr) (w : world) :
  (XQM_MAXQUOTAS <= type ->
   do_quotactl E sb type Q_XQUOTASYNC id addr path w = Ret (- EINVAL) w) /\
  (type < XQM_MAXQUOTAS -> s_qcop sb = None ->
   do_quotactl E sb type Q_XQUOTASYNC id addr path w = Ret (- ENOSYS) w) /\
  (type < XQM_MAXQUOTAS -> s_qcop sb <> None ->
   (0 <= security_quotactl E Q_XQUOTASYNC type (s32 id) (Some sb) ->
    do_quotactl E sb type Q_XQUOTASYNC id addr path w =
    Ret (if sb_rdonly sb then - EROFS else 0)
        (add_log w [EvSecurity Q_XQUOTASYNC type (s32 id) (Some (s_dev sb))])) /\
   (security_quotactl E Q_XQUOTASYNC type (s32 id) (Some sb) < 0 ->
    do_quotactl E sb type Q_XQUOTASYNC id addr path w =
    Ret (security_quotactl E Q_XQUOTASYNC type (s32 id) (Some sb))
        (add_log w [EvSecurity Q_XQUOTASYNC type (s32 id) (Some (s_dev sb))])) /\
   existsb is_qcop_call
     (log_of (do_quotactl E sb type Q_XQUOTASYNC id addr path
                {| w_user := w_user w; w_log := [] |})) = false).
Proof.
  split; [| split].
  - intros Ht. unfold do_quotactl.
    change (max_quotas Q_XQUOTASYNC) with XQM_MAXQUOTAS.
    destruct (Z.geb_spec type XQM_MAXQUOTAS); [reflexivity | lia].
  - intros Ht Hq. unfold do_quotactl.
    change (max_quotas Q_XQUOTASYNC) with XQM_MAXQUOTAS.
    destruct (Z.geb_spec type XQM_MAXQUOTAS); [lia |].
    rewrite Hq. reflexivity.
  - intros Ht Hq.
    destruct (s_qcop sb) as [q |] eqn:Hsq; [clear Hq | congruence].
    assert (Hrun : forall w1,
      do_quotactl E sb type Q_XQUOTASYNC id addr path w1 =
      let r := security_quotactl E Q_XQUOTASYNC type (s32 id) (Some sb) in
      Ret (if r <? 0 then r else if sb_rdonly sb then - EROFS else 0)
          (add_log w1 [EvSecurity Q_XQUOTASYNC type (s32 id) (Some (s_dev sb))])).
    { intros w1. unfold do_quotactl.
      change (max_quotas Q_XQUOTASYNC) with XQM_MAXQUOTAS.
      destruct (Z.geb_spec type XQM_MAXQUOTAS); [lia |].
      rewrite Hsq. unfold bind. rewrite check_quotactl_permission_run.
      change (privilege_grants E type Q_XQUOTASYNC id) with true.
      cbv iota beta zeta.
      destruct (security_quotactl E Q_XQUOTASYNC type (s32 id) (Some sb) <? 0);
        [reflexivity |].
      unfold do_quotactl_switch, sb_rdonly.
      change (Q_XQUOTASYNC =? Q_QUOTAON) with false.
      cbn [Z.eqb Pos.eqb orb Q_XQUOTASYNC].
      destruct (negb (Z.land (s_flags sb) MS_RDONLY =? 0)); reflexivity. }
    split; [| split].
    + intros Hr. rewrite Hrun. cbv zeta.
      destruct (Z.ltb_spec (security_quotactl E Q_XQUOTASYNC type (s32 id) (Some sb)) 0);
        [lia | reflexivity].
    + intros Hr. rewrite Hrun. cbv zeta.
      destruct (Z.ltb_spec (security_quotactl E Q_XQUOTASYNC type (s32 id) (Some sb)) 0);
        [reflexivity | lia].
    + rewrite Hrun. reflexivity.
Qed.

Lemma xquotasync_behaviour_witness :
  (2 < XQM_MAXQUOTAS /\
   s_qcop sb_rdonly_full <> None /\
   0 <= security_quotactl user_kernel Q_XQUOTASYNC 2 0 (Some sb_rdonly_full) /\
   do_quotactl user_kernel sb_rdonly_full 2 Q_XQUOTASYNC 0 0 PathNull w0 =
   Ret (- EROFS) (add_log w0 [EvSecurity Q_XQUOTASYNC 2 0 (Some 9)]) /\
   do_quotactl user_kernel sb_full 2 Q_XQUOTASYNC 0 0 PathNull w0 =
   Ret 0 (add_log w0 [EvSecurity Q_XQUOTASYNC 2 0 (Some 8)])) /\
  (security_quotactl user_kernel_refused Q_XQUOTASYNC 2 0
     (Some sb_rdonly_full) < 0 /\
   do_quotactl user_kernel_refused sb_rdonly_full 2 Q_XQUOTASYNC 0 0
     PathNull w0 =
   Ret (- EACCES) (add_log w0 [EvSecurity Q_XQUOTASYNC 2 0 (Some 9)])) /\
  (XQM_MAXQUOTAS <= 3 /\
   do_quotactl user_kernel sb_rdonly_full 3 Q_XQUOTASYNC 0 0 PathNull w0 =
   Ret (- EINVAL) w0) /\
  (s_qcop sb_no_quota = None /\
   do_quotactl user_kernel sb_no_quota 2 Q_XQUOTASYNC 0 0 PathNull w0 =
   Ret (- ENOSYS) w0).
Proof.
  assert (H2 : 2 < XQM_MAXQUOTAS) by reflexivity.
  assert (H3 : XQM_MAXQUOTAS <= 3) by (vm_compute; discriminate).
  assert (Hq : forall dev fl, s_qcop (mk_sb dev fl (Some full_ops)) <> None)
    by (intros dev fl; discriminate).
  assert (Hh : forall sb, 0 <= security_quotactl user_kernel Q_XQUOTASYNC 2 0
                                 (Some sb)) by (intros sb; cbn; lia).
  assert (Hr : forall sb, security_quotactl user_kernel_refused Q_XQUOTASYNC
                            2 0 (Some sb) < 0) by (intros sb; reflexivity).
  split; [| split; [| split]].
  - split; [exact H2 |].
    split; [apply Hq |].
    split; [apply Hh |].
    split.
    + exact (proj1 (proj2 (proj2 (xquotasync_behaviour user_kernel
               sb_rdonly_full 2 0 0 PathNull w0)) H2 (Hq _ _)) (Hh _)).
    + exact (proj1 (proj2 (proj2 (xquotasync_behaviour user_kernel
               sb_full 2 0 0 PathNull w0)) H2 (Hq _ _)) (Hh _)).
  - split; [apply Hr |].
    exact (proj1 (proj2 (proj2 (proj2 (xquotasync_behaviour
             user_kernel_refused sb_rdonly_full 2 0 0 PathNull w0))
             H2 (Hq _ _))) (Hr _)).
  - split; [exact H3 |].
    exact (proj1 (xquotasync_behaviour user_kernel sb_rdonly_full 3 0 0
                    PathNull w0) H3).
  - split; [reflexivity |].
    exact (proj1 (proj2 (xquotasync_behaviour user_kernel sb_no_quota 2 0 0
                           PathNull w0)) H2 eq_refl).
Defined.

(** ** Legacy command layer *)

(* the command word that QCMD packs is recovered by the shift of the
   system call, up to the 24 bits that fit *)
Lemma QCMD_cmds cmd type :
  Z.shiftr (u32 (QCMD cmd type)) SUBCMDSHIFT = Z.land cmd (Z.ones 24).
Proof.
  unfold QCMD, u32, SUBCMDSHIFT, SUBCMDMASK.
  rewrite Z.mod_mod by (vm_compute; discriminate).
  rewrite <- (Z.land_ones _ 32) by lia.
  rewrite Z.shiftr_land, Z.shiftr_lor, Z.shiftr_land.
  rewrite Z.shiftr_shiftl_l by lia.
  change (8 - 8) with 0. rewrite Z.shiftl_0_r.
  change (Z.shiftr 255 8) with 0. rewrite Z.land_0_r, Z.lor_0_r.
  reflexivity.
Qed.

(* compat_quotactl re-enters the system call with command words that are
   not legacy ones: the nested call takes the native path *)
Lemma QCMD_not_compat (E : kenv) (cmd type special id addr : Z) :
  In cmd [Q_QUOTAON; Q_QUOTAOFF; Q_SYNC] ->
  sys_quotactl E (QCMD cmd type) special id addr =
  sys_quotactl_reentered E (QCMD cmd type) special id addr.
Proof.
  intros Hin. unfold sys_quotactl, sys_quotactl_reentered.
  rewrite QCMD_cmds.
  destruct Hin as [<- | [<- | [<- | []]]]; reflexivity.
Qed.

(* the class index that QCMD packs is recovered by the mask of the
   system call *)
Lemma QCMD_type cmd type :
  Z.land (u32 (QCMD cmd type)) SUBCMDMASK = Z.land type SUBCMDMASK.
Proof.
  unfold QCMD, u32, SUBCMDSHIFT, SUBCMDMASK.
  rewrite Z.mod_mod by (vm_compute; discriminate).
  rewrite <- (Z.land_ones _ 32) by lia.
  rewrite <- Z.land_assoc.
  change (Z.land (Z.ones 32) 255) with (Z.ones 8).
  rewrite Z.land_lor_distr_l.
  rewrite (Z.land_ones (Z.shiftl cmd 8)) by lia.
  rewrite Z.shiftl_mul_pow2 by lia.
  rewrite Z.mod_mul by (vm_compute; discriminate).
  rewrite Z.lor_0_l, <- Z.land_assoc.
  reflexivity.
Qed.

(* a sync without a device, sent with the primary or the legacy command
   word, is the broadcast sync *)
Lemma broadcast_sync_entry (E : kenv) (type id addr : Z) :
  sys_quotactl E (QCMD Q_SYNC type) 0 id addr =
  quota_sync_all E (Z.land type SUBCMDMASK) /\
  sys_quotactl E (QCMD QC_SYNC type) 0 id addr =
  quota_sync_all E (Z.land type SUBCMDMASK).
Proof.
  assert (Hnative : sys_quotactl_reentered E
                      (QCMD Q_SYNC (Z.land type SUBCMDMASK)) 0 id addr =
                    quota_sync_all E (Z.land type SUBCMDMASK)).
  { unfold sys_quotactl_reentered.
    rewrite QCMD_cmds, QCMD_type, <- Z.land_assoc.
    change (Z.land SUBCMDMASK SUBCMDMASK) with SUBCMDMASK.
    reflexivity. }
  split.
  - rewrite QCMD_not_compat by (cbn; auto).
    unfold sys_quotactl_reentered. rewrite QCMD_cmds, QCMD_type.
    reflexivity.
  - unfold sys_quotactl. rewrite QCMD_cmds, QCMD_type.
    change (is_compat_cmd (Z.land QC_SYNC (Z.ones 24))) with true.
    cbv iota. unfold compat_quotactl.
    change (Z.land QC_SYNC (Z.ones 24)) with QC_SYNC.
    change (QC_SYNC =? QC_QUOTAON) with false.
    change (QC_SYNC =? QC_QUOTAOFF) with false.
    change (QC_SYNC =? QC_SYNC) with true.
    cbv iota. exact Hnative.
Qed.

(* the privilege decision for the two record commands *)
Lemma privilege_get_record (E : kenv) type id :
  privilege_grants E type Q_GETQUOTA id =
  owns_dquot E type id || capable E CAP_SYS_ADMIN.
Proof. reflexivity. Qed.

Lemma privilege_set_record (E : kenv) type id :
  privilege_grants E type Q_SETQUOTA id = capable E CAP_SYS_ADMIN.
Proof. reflexivity. Qed.

(* whenever a caller without CAP_SYS_ADMIN names its own identity, the
   primary rule refuses Q_SETQUOTA, and the legacy set commands pass the
   permission check made for Q_GETQUOTA and call set_dqblk *)
Lemma compat_setquota_owner (E : kenv) (cmds type id addr : Z)
    (sb : super_block) (q : quotactl_ops)
    (f : kqid -> fs_disk_quota -> Z) (w : world) :
  capable E CAP_SYS_ADMIN = false ->
  owns_dquot E type id = true ->
  security_quotactl E Q_GETQUOTA type (s32 id) (Some sb) = 0 ->
  snd (read_bytes (w_user w) addr (sizeof (T := compat_dqblk))) = 0 ->
  qid_valid E (make_kqid E type id) = true ->
  s_qcop sb = Some q ->
  set_dqblk q = Some f ->
  check_quotactl_permission E sb type Q_SETQUOTA id w = Ret (- EPERM) w /\
  exists fdq,
    compat_setquota E cmds type id addr sb w =
    Ret (f (make_kqid E type id) fdq)
        (add_log w [EvSecurity Q_GETQUOTA type (s32 id) (Some (s_dev sb));
                    EvSetDqblk (s_dev sb) (make_kqid E type id) fdq]).
Proof.
  intros Hcap Hown Hhook Hread Hvalid Hq Hf.
  split.
  - rewrite check_quotactl_permission_run, privilege_set_record, Hcap.
    reflexivity.
  - unfold compat_setquota, bind.
    rewrite check_quotactl_permission_run, privilege_get_record, Hown, Hhook.
    cbn [orb Z.eqb negb].
    unfold get_struct, bind, copy_from_user, ret.
    cbn [w_user add_log].
    remember (read_bytes (w_user w) addr sizeof) as rb eqn:Hrb.
    cbn [snd fst]. rewrite Hread. cbn [Z.eqb negb].
    rewrite Hvalid. cbn [negb].
    rewrite Hq. unfold deref. rewrite Hf. rewrite emit_run, add_log_app.
    eexists. reflexivity.
Qed.

(** C1 (the code departs from the claim): an ordinary user (uid 1000, no
    CAP_SYS_ADMIN, security module permitting) names its own uid.  For
    each legacy set command the primary rule denies the primary opcode it
    stands for, and the system call with that primary opcode returns
    -EPERM without calling the filesystem; yet the system call with the
    legacy command word succeeds and calls the filesystem's set
    operation, because compat_quotactl checks the permission of
    Q_GETQUOTA. *)
Theorem legacy_set_commands_bypass_primary_rule :
  Forall (fun c =>
    check_quotactl_permission user_kernel sb_full USRQUOTA (snd c) 1000 w0
      = Ret (- EPERM) w0 /\
    result_of (sys_quotactl user_kernel (QCMD (snd c) USRQUOTA)
                 4096 1000 8192 w0) = Some (- EPERM) /\
    existsb is_qcop_call
      (log_of (sys_quotactl user_kernel (QCMD (snd c) USRQUOTA)
                 4096 1000 8192 w0)) = false /\
    result_of (sys_quotactl user_kernel (QCMD (fst c) USRQUOTA)
                 4096 1000 8192 w0) = Some 0 /\
    existsb is_qcop_call
      (log_of (sys_quotactl user_kernel (QCMD (fst c) USRQUOTA)
                 4096 1000 8192 w0)) = true)
    legacy_set_commands /\
  log_of (sys_quotactl user_kernel (QCMD QC_SETQUOTA USRQUOTA)
            4096 1000 8192 w0) =
  [EvGetSuper 8 true;
   EvSecurity Q_GETQUOTA USRQUOTA 1000 (Some 8);
   EvSetDqblk 8 {| kq_type := USRQUOTA; kq_id := 1000 |}
     (copy_from_if_dqblk blank_fdq
        {| dqb_bhardlimit := 0; dqb_bsoftlimit := 0; dqb_curspace := 0;
           dqb_ihardlimit := 0; dqb_isoftlimit := 0; dqb_curinodes := 0;
           dqb_btime := dqb_btime sample_record;
           dqb_itime := dqb_itime sample_record;
           dqb_valid := Z.lor QIF_LIMITS QIF_USAGE |});
   EvDropSuper 8].
Proof.
  split.
  - repeat constructor; vm_compute; reflexivity.
  - vm_compute. reflexivity.
Qed.

(** * Further properties of the dispatcher *)

(** ** Frame lemmas *)

Lemma world_of_bind {A B} (c : M A) (k : A -> M B) w :
  world_of (bind c k w) =
  match c w with
  | Ret a w' => world_of (k a w')
  | Oops w' => w'
  end.
Proof. unfold bind. destruct (c w); reflexivity. Qed.

Lemma returns_ret {A} (a : A) : returns (ret a).
Proof. intros w. exists a, w. reflexivity. Qed.

Lemma returns_bind {A B} (c : M A) (k : A -> M B) :
  returns c -> (forall a, returns (k a)) -> returns (bind c k).
Proof.
  intros Hc Hk w. destruct (Hc w) as (a & w1 & H1).
  destruct (Hk a w1) as (b & w2 & H2).
  exists b, w2. unfold bind. rewrite H1. exact H2.
Qed.

Lemma returns_emit e : returns (emit e).
Proof. intros w. eexists. eexists. reflexivity. Qed.

Lemma returns_copy_to_user addr bs : returns (copy_to_user addr bs).
Proof.
  intros w. unfold copy_to_user.
  destruct (write_bytes (w_user w) addr bs). eexists. eexists. reflexivity.
Qed.

Lemma returns_copy_from_user addr n : returns (copy_from_user addr n).
Proof. intros w. eexists. eexists. reflexivity. Qed.

Lemma returns_get_user_mem : returns get_user_mem.
Proof. intros w. eexists. eexists. reflexivity. Qed.

Lemma returns_deref_some {A} (a : A) : returns (deref (Some a)).
Proof. intros w. exists a, w. reflexivity. Qed.

Lemma records_ret {A} ok (a : A) : records ok (ret a).
Proof. intros w. exists []. cbn. rewrite app_nil_r. auto. Qed.

Lemma records_bind {A B} ok (c : M A) (k : A -> M B) :
  records ok c -> (forall a, records ok (k a)) -> records ok (bind c k).
Proof.
  intros Hc Hk w. destruct (Hc w) as (es1 & O1 & L1).
  rewrite world_of_bind. destruct (c w) as [a w1 | w1]; cbn in L1.
  - destruct (Hk a w1) as (es2 & O2 & L2).
    exists (es1 ++ es2). rewrite forallb_app, O1, O2, L2, L1, app_assoc. auto.
  - exists es1. auto.
Qed.

Lemma records_emit ok e : ok e = true -> records ok (emit e).
Proof. intros H w. exists [e]. cbn. rewrite H. auto. Qed.

Lemma records_copy_to_user ok addr bs : records ok (copy_to_user addr bs).
Proof.
  intros w. exists []. unfold copy_to_user.
  destruct (write_bytes (w_user w) addr bs). cbn. rewrite app_nil_r. auto.
Qed.

Lemma records_copy_from_user ok addr n : records ok (copy_from_user addr n).
Proof. intros w. exists []. cbn. rewrite app_nil_r. auto. Qed.

Lemma records_get_user_mem ok : records ok get_user_mem.
Proof. intros w. exists []. cbn. rewrite app_nil_r. auto. Qed.

Lemma records_deref {A} ok (p : option A) : records ok (deref p).
Proof.
  intros w. exists []. unfold deref. destruct p; cbn; rewrite app_nil_r; auto.
Qed.

Lemma keeps_ret {A} (a : A) : keeps_user_memory (ret a).
Proof. intros w. reflexivity. Qed.

Lemma keeps_bind {A B} (c : M A) (k : A -> M B) :
  keeps_user_memory c -> (forall a, keeps_user_memory (k a)) ->
  keeps_user_memory (bind c k).
Proof.
  intros Hc Hk w. rewrite world_of_bind. specialize (Hc w).
  destruct (c w) as [a w1 | w1]; cbn in Hc.
  - rewrite Hk. exact Hc.
  - exact Hc.
Qed.

Lemma keeps_emit e : keeps_user_memory (emit e).
Proof. intros w. reflexivity. Qed.

Lemma keeps_copy_from_user addr n : keeps_user_memory (copy_from_user addr n).
Proof. intros w. reflexivity. Qed.

Lemma keeps_deref {A} (p : option A) : keeps_user_memory (deref p).
Proof. intros w. unfold deref. destruct p; reflexivity. Qed.

(* one step through a computation, for any of the three frames *)
Ltac frame_step :=
  match goal with
  | |- returns (bind _ _) => apply returns_bind; [| intros]
  | |- returns (ret _) => apply returns_ret
  | |- returns (emit _) => apply returns_emit
  | |- returns (copy_to_user _ _) => apply returns_copy_to_user
  | |- returns (copy_from_user _ _) => apply returns_copy_from_user
  | |- returns get_user_mem => apply returns_get_user_mem
  | |- returns (deref (Some _)) => apply returns_deref_some
  | |- records _ (bind _ _) => apply records_bind; [| intros]
  | |- records _ (ret _) => apply records_ret
  | |- records _ (emit _) => apply records_emit; reflexivity
  | |- records _ (copy_to_user _ _) => apply records_copy_to_user
  | |- records _ (copy_from_user _ _) => apply records_copy_from_user
  | |- records _ get_user_mem => apply records_get_user_mem
  | |- records _ (deref _) => apply records_deref
  | |- keeps_user_memory (bind _ _) => apply keeps_bind; [| intros]
  | |- keeps_user_memory (ret _) => apply keeps_ret
  | |- keeps_user_memory (emit _) => apply keeps_emit
  | |- keeps_user_memory (copy_from_user _ _) => apply keeps_copy_from_user
  | |- keeps_user_memory (deref _) => apply keeps_deref
  | |- _ (if ?b then _ else _) => destruct b
  | |- _ (match ?x with _ => _ end) => destruct x
  end.

Ltac frame := repeat frame_step.

Section Frames.

Variable E : kenv.

(* the helpers of do_quotactl come back when the filesystem has a table *)
Lemma switch_returns sb q type cmd id addr path :
  s_qcop sb = Some q ->
  returns (do_quotactl_switch E sb q type cmd id addr path).
Proof.
  intros Hq.
  unfold do_quotactl_switch, quota_quotaon, quota_getfmt, quota_getinfo,
    quota_setinfo, quota_getquota, quota_setquota, quota_setxstate,
    quota_rmxquota, quota_getxstate, quota_getxstatev, quota_setxquota,
    quota_getxquota, put_struct, get_struct, get_u32.
  rewrite Hq. frame.
Qed.

Lemma check_permission_returns sb type cmd id :
  returns (check_quotactl_permission E sb type cmd id).
Proof.
  unfold check_quotactl_permission, call_security. frame.
Qed.

Lemma check_permission_records sb type cmd id :
  records is_dispatch_event (check_quotactl_permission E sb type cmd id).
Proof.
  unfold check_quotactl_permission, call_security. frame.
Qed.

Lemma check_permission_keeps sb type cmd id :
  keeps_user_memory (check_quotactl_permission E sb type cmd id).
Proof.
  unfold check_quotactl_permission, call_security. frame.
Qed.

(* whatever the switch records is a call of the filesystem *)
Lemma switch_records sb q type cmd id addr path :
  records is_dispatch_event (do_quotactl_switch E sb q type cmd id addr path).
Proof.
  unfold do_quotactl_switch, quota_quotaon, quota_getfmt, quota_getinfo,
    quota_setinfo, quota_getquota, quota_setquota, quota_setxstate,
    quota_rmxquota, quota_getxstate, quota_getxstatev, quota_setxquota,
    quota_getxquota, put_struct, get_struct, get_u32.
  frame.
Qed.

Lemma do_quotactl_records sb type cmd id addr path :
  records is_dispatch_event (do_quotactl E sb type cmd id addr path).
Proof.
  unfold do_quotactl.
  destruct (type >=? max_quotas cmd); [frame |].
  destruct (s_qcop sb) as [q |]; [| frame].
  apply records_bind; [apply check_permission_records | intros r].
  destruct (r <? 0); [frame | apply switch_records].
Qed.

End Frames.

(** ** The dispatcher never follows a NULL pointer *)

(** X1: do_quotactl comes back with a result for every super block,
    class, command, identity, buffer and path: it tests sb->s_qcop and
    every operation before it calls through them. *)
Theorem do_quotactl_returns (E : kenv) (sb : super_block)
    (type cmd id addr : Z) (path : path_ptr) :
  returns (do_quotactl E sb type cmd id addr path).
Proof.
  unfold do_quotactl.
  destruct (type >=? max_quotas cmd); [frame |].
  destruct (s_qcop sb) as [q |] eqn:Hq; [| frame].
  apply returns_bind; [apply check_permission_returns | intros r].
  destruct (r <? 0); [frame |].
  apply switch_returns. exact Hq.
Qed.

(* the same fact, for use in the lemmas on the system call *)
Lemma do_quotactl_comes_back (E : kenv) (sb : super_block)
    (type cmd id addr : Z) (path : path_ptr) :
  returns (do_quotactl E sb type cmd id addr path).
Proof.
  unfold do_quotactl.
  destruct (type >=? max_quotas cmd); [frame |].
  destruct (s_qcop sb) as [q |] eqn:Hq; [| frame].
  apply returns_bind; [apply check_permission_returns | intros r].
  destruct (r <? 0); [frame |].
  apply switch_returns. exact Hq.
Qed.

(* decide the comparisons between known command words *)
Ltac decide_eqb :=
  repeat match goal with
  | |- context [Z.eqb ?a ?b] =>
      let v := eval vm_compute in (Z.eqb a b) in
      match v with
      | true => change (Z.eqb a b) with true
      | false => change (Z.eqb a b) with false
      end
  end.

(** ** What a refused or unknown request does *)

(** X2: when the class index is valid and the filesystem has a
    capability table, a request that the permission check refuses gets
    the refusal as its result and nothing else happens: after a privilege
    denial the world is unchanged, after a refusal by the security hook
    only the hook has been consulted.  No operation of the filesystem is
    called and the caller's buffer is neither read nor written, whatever
    the command. *)
Theorem do_quotactl_refused (E : kenv) (sb : super_block) (q : quotactl_ops)
    (type cmd id addr : Z) (path : path_ptr) (w : world) :
  type < max_quotas cmd ->
  s_qcop sb = Some q ->
  (privilege_grants E type cmd id = false ->
   do_quotactl E sb type cmd id addr path w = Ret (- EPERM) w) /\
  (privilege_grants E type cmd id = true ->
   security_quotactl E cmd type (s32 id) (Some sb) < 0 ->
   do_quotactl E sb type cmd id addr path w =
   Ret (security_quotactl E cmd type (s32 id) (Some sb))
       (add_log w [EvSecurity cmd type (s32 id) (Some (s_dev sb))])).
Proof.
  intros Ht Hq. unfold do_quotactl.
  destruct (Z.geb_spec type (max_quotas cmd)); [lia |].
  rewrite Hq. unfold bind. rewrite check_quotactl_permission_run.
  split.
  - intros ->. reflexivity.
  - intros -> Hr. apply Z.ltb_lt in Hr. rewrite Hr. reflexivity.
Qed.

Lemma do_quotactl_refused_witness :
  0 < max_quotas Q_SETQUOTA /\
  s_qcop sb_full = Some full_ops /\
  privilege_grants user_kernel 0 Q_SETQUOTA 1000 = false /\
  do_quotactl user_kernel sb_full 0 Q_SETQUOTA 1000 8192 PathNull w0 =
  Ret (- EPERM) w0.
Proof.
  assert (H0 : 0 < max_quotas Q_SETQUOTA) by reflexivity.
  split; [exact H0 |].
  split; [reflexivity |].
  split; [reflexivity |].
  exact (proj1 (do_quotactl_refused user_kernel sb_full full_ops 0 Q_SETQUOTA
                  1000 8192 PathNull w0 H0 eq_refl) eq_refl).
Defined.

(* a command word outside the sixteen known ones fails every test of the
   switches *)
Lemma unknown_command_tests cmd :
  ~ In cmd known_commands ->
  Forall (fun c => (cmd =? c) = false) known_commands.
Proof.
  intros Hn. apply Forall_forall. intros c Hc.
  apply Z.eqb_neq. intros ->. exact (Hn Hc).
Qed.

(** X3: when the class index is valid and the filesystem has a
    capability table, a command word that is none of the sixteen known
    commands is refused with -EPERM and nothing consulted when the caller
    lacks CAP_SYS_ADMIN; for an administrator whom the security hook does
    not refuse it returns -EINVAL after the hook has been consulted, and
    no operation of the filesystem is called. *)
Theorem do_quotactl_unknown_command (E : kenv) (sb : super_block)
    (q : quotactl_ops) (type cmd id addr : Z) (path : path_ptr) (w : world) :
  ~ In cmd known_commands ->
  type < max_quotas cmd ->
  s_qcop sb = Some q ->
  (capable E CAP_SYS_ADMIN = false ->
   do_quotactl E sb type cmd id addr path w = Ret (- EPERM) w) /\
  (capable E CAP_SYS_ADMIN = true ->
   0 <= security_quotactl E cmd type (s32 id) (Some sb) ->
   do_quotactl E sb type cmd id addr path w =
   Ret (- EINVAL) (add_log w [EvSecurity cmd type (s32 id) (Some (s_dev sb))])).
Proof.
  intros Hn Ht Hq.
  pose proof (unknown_command_tests cmd Hn) as Hall.
  unfold known_commands, generic_family, xqm_family in Hall. cbn [app] in Hall.
  repeat match type of Hall with
         | Forall _ (_ :: _) =>
             let H := fresh "Hc" in
             apply Forall_cons_iff in Hall; destruct Hall as [H Hall]
         end.
  assert (Hp : privilege_grants E type cmd id = capable E CAP_SYS_ADMIN).
  { unfold privilege_grants, spec_unprivileged, spec_self_service.
    cbn [existsb].
    repeat match goal with
           | H : (cmd =? ?c) = false |- context [cmd =? ?c] => rewrite H
           end.
    reflexivity. }
  unfold do_quotactl.
  destruct (Z.geb_spec type (max_quotas cmd)); [lia |].
  rewrite Hq. unfold bind. rewrite check_quotactl_permission_run, Hp.
  split.
  - intros ->. reflexivity.
  - intros -> Hr.
    destruct (Z.ltb_spec (security_quotactl E cmd type (s32 id) (Some sb)) 0);
      [lia |].
    unfold do_quotactl_switch.
    repeat match goal with
           | H : (cmd =? ?c) = false |- context [cmd =? ?c] => rewrite H
           end.
    reflexivity.
Qed.

Lemma do_quotactl_unknown_command_witness :
  ~ In 42 known_commands /\
  0 < max_quotas 42 /\
  do_quotactl admin_kernel sb_full 0 42 0 0 PathNull w0 =
  Ret (- EINVAL) (add_log w0 [EvSecurity 42 0 0 (Some 8)]) /\
  do_quotactl user_kernel sb_full 0 42 0 0 PathNull w0 = Ret (- EPERM) w0.
Proof.
  assert (Hn : ~ In 42 known_commands).
  { intros H. cbn in H. repeat destruct H as [H | H]; try discriminate H.
    exact H. }
  assert (H0 : 0 < max_quotas 42) by reflexivity.
  assert (Hh : 0 <= security_quotactl admin_kernel 42 0 0 (Some sb_full))
    by (cbn; lia).
  split; [exact Hn |].
  split; [exact H0 |].
  split.
  - exact (proj2 (do_quotactl_unknown_command admin_kernel sb_full full_ops
                    0 42 0 0 PathNull w0 Hn H0 eq_refl) eq_refl Hh).
  - exact (proj1 (do_quotactl_unknown_command user_kernel sb_full full_ops
                    0 42 0 0 PathNull w0 Hn H0 eq_refl) eq_refl).
Defined.

(** ** The caller's buffer *)

(** X4: for the ten commands that set or switch something (Q_QUOTAON,
    Q_QUOTAOFF, Q_SETINFO, Q_SETQUOTA, Q_SYNC, Q_XQUOTAON, Q_XQUOTAOFF,
    Q_XQUOTARM, Q_XSETQLIM, Q_XQUOTASYNC) do_quotactl never writes to user
    memory, whatever the filesystem answers. *)
Theorem set_commands_keep_user_memory (E : kenv) (sb : super_block)
    (type cmd id addr : Z) (path : path_ptr) :
  In cmd set_commands ->
  keeps_user_memory (do_quotactl E sb type cmd id addr path).
Proof.
  intros Hin. unfold do_quotactl.
  destruct (type >=? max_quotas cmd); [frame |].
  destruct (s_qcop sb) as [q |]; [| frame].
  apply keeps_bind; [apply check_permission_keeps | intros r].
  destruct (r <? 0); [frame |].
  unfold set_commands in Hin. cbn [In] in Hin.
  repeat (destruct Hin as [<- | Hin]; [
    unfold do_quotactl_switch, quota_quotaon, quota_setinfo, quota_setquota,
      quota_setxstate, quota_rmxquota, quota_setxquota, get_struct, get_u32;
    decide_eqb; cbv iota; cbn [orb]; frame |]).
  destruct Hin.
Qed.

Lemma set_commands_keep_user_memory_witness :
  In Q_SETQUOTA set_commands /\
  w_user (world_of (do_quotactl admin_kernel sb_full 0 Q_SETQUOTA 1000 8192
                      PathNull w0)) = w_user w0.
Proof.
  assert (Hin : In Q_SETQUOTA set_commands) by (cbn; auto).
  split; [exact Hin |].
  exact (set_commands_keep_user_memory admin_kernel sb_full 0 Q_SETQUOTA 1000
           8192 PathNull Hin w0).
Defined.

(* a copy from an unmapped address copies nothing *)
Lemma read_bytes_unmapped m a n :
  m a = None -> snd (read_bytes m a (S n)) = Z.of_nat (S n).
Proof. intros H. cbn [read_bytes]. rewrite H. reflexivity. Qed.

Lemma read_fault_test m a n :
  m a = None -> negb (snd (read_bytes m a (S n)) =? 0) = true.
Proof.
  intros H. rewrite (read_bytes_unmapped m a n H).
  apply negb_true_iff, Z.eqb_neq. lia.
Qed.

(** X5: the five helpers that read their argument from the caller
    (quota_setinfo, quota_setquota, quota_setxstate, quota_setxquota,
    quota_rmxquota) copy it in before they look at the filesystem: when
    the buffer is not mapped they return -EFAULT with the world unchanged,
    whether or not the filesystem has the operation, or any capability
    table at all. *)
Theorem set_helpers_fault_first (E : kenv) (sb : super_block)
    (type cmd id addr : Z) (w : world) :
  w_user w addr = None ->
  quota_setinfo sb type addr w = Ret (- EFAULT) w /\
  quota_setquota E sb type id addr w = Ret (- EFAULT) w /\
  quota_setxstate sb cmd addr w = Ret (- EFAULT) w /\
  quota_setxquota E sb type id addr w = Ret (- EFAULT) w /\
  quota_rmxquota sb addr w = Ret (- EFAULT) w.
Proof.
  intros Hm.
  unfold quota_setinfo, quota_setquota, quota_setxstate, quota_setxquota,
    quota_rmxquota, get_struct, get_u32, bind, copy_from_user, ret.
  change (sizeof (T := if_dqinfo)) with 24%nat.
  change (sizeof (T := if_dqblk)) with 72%nat.
  change (sizeof (T := fs_disk_quota)) with 112%nat.
  cbn [snd fst].
  rewrite !(read_fault_test _ _ _ Hm).
  repeat split.
Qed.

Lemma set_helpers_fault_first_witness :
  w_user {| w_user := fun _ => None; w_log := [] |} 8192 = None /\
  quota_setquota user_kernel sb_no_quota 0 1000 8192
    {| w_user := fun _ => None; w_log := [] |} =
  Ret (- EFAULT) {| w_user := fun _ => None; w_log := [] |}.
Proof.
  split; [reflexivity |].
  exact (proj1 (proj2 (set_helpers_fault_first user_kernel sb_no_quota 0 0
                         1000 8192 {| w_user := fun _ => None; w_log := [] |}
                         eq_refl))).
Defined.

(** X6: an identity that does not map to a valid kernel quota id is
    refused with -EINVAL before the filesystem is called: by
    quota_getquota and quota_getxquota when the filesystem has get_dqblk,
    and by quota_setquota and quota_setxquota when the buffer could be
    read and the filesystem has set_dqblk.  The world is unchanged. *)
Theorem invalid_qid_rejected (E : kenv) (sb : super_block) (q : quotactl_ops)
    (type id addr : Z) (w : world) :
  s_qcop sb = Some q ->
  qid_valid E (make_kqid E type id) = false ->
  (get_dqblk q <> None ->
   quota_getquota E sb type id addr w = Ret (- EINVAL) w /\
   quota_getxquota E sb type id addr w = Ret (- EINVAL) w) /\
  (set_dqblk q <> None ->
   (snd (read_bytes (w_user w) addr (sizeof (T := if_dqblk))) = 0 ->
    quota_setquota E sb type id addr w = Ret (- EINVAL) w) /\
   (snd (read_bytes (w_user w) addr (sizeof (T := fs_disk_quota))) = 0 ->
    quota_setxquota E sb type id addr w = Ret (- EINVAL) w)).
Proof.
  intros Hq Hv.
  unfold quota_getquota, quota_getxquota, quota_setquota, quota_setxquota,
    get_struct, bind, deref, copy_from_user, ret.
  rewrite Hq. cbn [snd fst].
  split.
  - intros Hg. destruct (get_dqblk q); [| congruence].
    rewrite Hv. split; reflexivity.
  - intros Hs. destruct (set_dqblk q); [| congruence].
    split; intros ->; cbn [Z.eqb negb]; rewrite Hv; reflexivity.
Qed.

Lemma invalid_qid_rejected_witness :
  s_qcop sb_full = Some full_ops /\
  qid_valid user_kernel (make_kqid user_kernel 0 (2 ^ 32 - 1)) = false /\
  get_dqblk full_ops <> None /\
  quota_getquota admin_kernel sb_full 0 (2 ^ 32 - 1) 8192 w0 =
  Ret (- EINVAL) w0.
Proof.
  assert (Hg : get_dqblk full_ops <> None) by discriminate.
  split; [reflexivity |].
  split; [reflexivity |].
  split; [exact Hg |].
  exact (proj1 (proj1 (invalid_qid_rejected admin_kernel sb_full full_ops 0
                         (2 ^ 32 - 1) 8192 w0 eq_refl eq_refl) Hg)).
Defined.

(** X7: when the filesystem's get operation fails with r <> 0, the get
    helpers (quota_getinfo, quota_getquota, quota_getxquota,
    quota_getxstate) return r itself and write nothing to the caller's
    buffer: the only thing that happened is the call. *)
Theorem failed_get_writes_nothing (E : kenv) (sb : super_block)
    (q : quotactl_ops) (type id addr : Z) (w : world) :
  s_qcop sb = Some q ->
  (forall f, get_info q = Some f -> fst (f type) <> 0 ->
   quota_getinfo sb type addr w =
   Ret (fst (f type)) (add_log w [EvGetInfo (s_dev sb) type])) /\
  (forall f, get_dqblk q = Some f ->
   qid_valid E (make_kqid E type id) = true ->
   fst (f (make_kqid E type id)) <> 0 ->
   quota_getquota E sb type id addr w =
   Ret (fst (f (make_kqid E type id)))
       (add_log w [EvGetDqblk (s_dev sb) (make_kqid E type id)]) /\
   quota_getxquota E sb type id addr w =
   Ret (fst (f (make_kqid E type id)))
       (add_log w [EvGetDqblk (s_dev sb) (make_kqid E type id)])) /\
  (forall r fqs, get_xstate q = Some (r, fqs) -> r <> 0 ->
   quota_getxstate sb addr w = Ret r (add_log w [EvGetXstate (s_dev sb)])).
Proof.
  intros Hq.
  unfold quota_getinfo, quota_getquota, quota_getxquota, quota_getxstate,
    bind, deref.
  rewrite Hq.
  split; [| split].
  - intros f -> Hr. rewrite emit_run.
    destruct (f type) as [r info]. cbn [fst] in *.
    apply Z.eqb_neq in Hr. rewrite Hr. reflexivity.
  - intros f -> -> Hr. cbn [negb]. rewrite emit_run.
    destruct (f (make_kqid E type id)) as [r fdq]. cbn [fst] in *.
    apply Z.eqb_neq in Hr. rewrite Hr. split; reflexivity.
  - intros r fqs -> Hr. rewrite emit_run.
    apply Z.eqb_neq in Hr. rewrite Hr. reflexivity.
Qed.

Lemma failed_get_writes_nothing_witness :
  s_qcop (mk_sb 13 0 (Some failing_get_ops)) = Some failing_get_ops /\
  quota_getquota user_kernel (mk_sb 13 0 (Some failing_get_ops)) 0 1000 8192 w0
  = Ret (- ESRCH)
      (add_log w0 [EvGetDqblk 13 {| kq_type := 0; kq_id := 1000 |}]).
Proof.
  split; [reflexivity |].
  refine (proj1 (proj1 (proj2 (failed_get_writes_nothing user_kernel
            (mk_sb 13 0 (Some failing_get_ops)) failing_get_ops 0 1000 8192 w0
            eq_refl)) _ eq_refl eq_refl _)).
  cbn. discriminate.
Defined.

(** X8: when the caller's version byte is FS_QSTATV_VERSION1, the request
    quota_getxstatev hands to the filesystem carries that version and
    zeros only: nothing else of the caller's buffer reaches the
    filesystem.  If the operation fails with r <> 0 that r is returned
    and nothing is written back. *)
Theorem getxstatev_request (sb : super_block) (q : quotactl_ops)
    (f : fs_quota_statv -> Z * fs_quota_statv) (addr b : Z) (w : world) :
  s_qcop sb = Some q ->
  get_xstatev q = Some f ->
  w_user w addr = Some b ->
  s8 b = FS_QSTATV_VERSION1 ->
  w_log (world_of (quota_getxstatev sb addr w)) =
  w_log w ++ [EvGetXstatev (s_dev sb) statv_request] /\
  (fst (f statv_request) <> 0 ->
   quota_getxstatev sb addr w =
   Ret (fst (f statv_request))
       (add_log w [EvGetXstatev (s_dev sb) statv_request])).
Proof.
  intros Hq Hf Hb Hv.
  assert (Hreq : of_bytes (T := fs_quota_statv)
                   ([b] ++ repeat 0 (sizeof (T := fs_quota_statv) - 1)) =
                 statv_request).
  { unfold statv_request. cbn [app].
    change (of_bytes (T := fs_quota_statv) (b :: repeat 0 (sizeof (T := fs_quota_statv) - 1)))
      with {| qs_version := s8 (b + 256 * 0);
              qs_rest := repeat 0 (sizeof (T := fs_quota_statv) - 1) |}.
    f_equal. rewrite <- Hv. f_equal. lia. }
  unfold quota_getxstatev, bind, deref. rewrite Hq, Hf.
  unfold copy_from_user. rewrite (read_one_byte _ _ _ Hb).
  cbn [snd fst Z.eqb negb]. rewrite Hreq.
  change (qs_version statv_request =? FS_QSTATV_VERSION1) with true.
  cbv beta iota. rewrite emit_run.
  destruct (f statv_request) as [r fqs']. cbn [fst].
  split.
  - destruct (r =? 0); [| reflexivity].
    unfold put_struct, copy_to_user, ret. cbn [w_user add_log].
    destruct (write_bytes (w_user w) addr (to_bytes fqs')) as [m c].
    destruct (c =? 0); reflexivity.
  - intros Hr. apply Z.eqb_neq in Hr. rewrite Hr. reflexivity.
Qed.

Lemma getxstatev_request_witness :
  s_qcop sb_full = Some full_ops /\
  w_user (world_of_bytes 1) 4096 = Some 1 /\
  s8 1 = FS_QSTATV_VERSION1 /\
  w_log (world_of (quota_getxstatev sb_full 4096 (world_of_bytes 1))) =
  [EvGetXstatev 8 statv_request].
Proof.
  split; [reflexivity |].
  split; [reflexivity |].
  split; [reflexivity |].
  exact (proj1 (getxstatev_request sb_full full_ops (fun fqs => (0, fqs))
                  4096 1 (world_of_bytes 1) eq_refl eq_refl eq_refl eq_refl)).
Defined.

(** ** The translators, the other way round *)

(* a signed 32-bit value survives the conversion to __u64 and back *)
Lemma s32_u64 t : - 2 ^ 31 <= t < 2 ^ 31 -> s32 (u64 t) = t.
Proof.
  unfold s32, sint, u64.
  change (2 ^ (32 - 1)) with 2147483648.
  change (2 ^ 31) with 2147483648.
  change (2 ^ 32) with 4294967296.
  change (2 ^ 64) with (4294967296 * 4294967296).
  intros Ht.
  rewrite Z.rem_mul_r by lia.
  rewrite Z.mul_comm, Z.mod_add by lia.
  rewrite Z.mod_mod by lia.
  pose proof (Z.mod_pos_bound t 4294967296 eq_refl) as Hm.
  pose proof (Z.div_mod t 4294967296 ltac:(lia)) as Hd.
  remember (t / 4294967296) as k eqn:Hk. clear Hk.
  remember (t mod 4294967296) as m eqn:Hmm. clear Hmm.
  destruct (Z.ltb_spec m 2147483648); lia.
Qed.

(** X9: translating an extended record to a basic one and back
    (copy_from_if_dqblk after copy_to_if_dqblk) gives back all eight
    numeric fields, the two signed timers included, when they hold values
    of their C types; the field mask becomes the eight bits a basic record
    can carry, and the fields the translators do not name keep what the
    destination held. *)
Theorem extended_round_trip (dst src : fs_disk_quota) :
  fs_disk_quota_wf src ->
  let back := copy_from_if_dqblk dst (copy_to_if_dqblk src) in
  d_blk_hardlimit back = d_blk_hardlimit src /\
  d_blk_softlimit back = d_blk_softlimit src /\
  d_bcount back = d_bcount src /\
  d_ino_hardlimit back = d_ino_hardlimit src /\
  d_ino_softlimit back = d_ino_softlimit src /\
  d_icount back = d_icount src /\
  d_btimer back = d_btimer src /\
  d_itimer back = d_itimer src /\
  d_fieldmask back = FS_DQ_BASIC_FIELDS /\
  d_other back = d_other dst.
Proof.
  intros [Hbh Hbs Hih His Hbc Hic Hit Hbt].
  cbn -[fieldmask_of_valid u64 s32].
  rewrite !(u64_id (u64 _)) by apply u64_range.
  rewrite !u64_id by assumption.
  rewrite !s32_u64 by assumption.
  repeat split.
Qed.

Lemma sample_fdq_wf : fs_disk_quota_wf sample_fdq.
Proof.
  constructor; vm_compute; split; congruence.
Qed.

Lemma extended_round_trip_witness :
  fs_disk_quota_wf sample_fdq /\
  d_itimer (copy_from_if_dqblk blank_fdq (copy_to_if_dqblk sample_fdq)) = -1 /\
  d_fieldmask (copy_from_if_dqblk blank_fdq (copy_to_if_dqblk sample_fdq)) =
  FS_DQ_BASIC_FIELDS.
Proof.
  pose proof (extended_round_trip blank_fdq sample_fdq sample_fdq_wf) as H.
  cbv zeta in H.
  split; [exact sample_fdq_wf |].
  split; [apply H | apply H].
Defined.

(** ** Which commands wait for a frozen filesystem *)



(** ** Super block and path references *)

Lemma pinned_app es es' : pinned (es ++ es') = pinned es ++ pinned es'.
Proof.
  induction es as [| e es IH]; [reflexivity |].
  destruct e; cbn; rewrite ?IH; reflexivity.
Qed.

Lemma released_app es es' : released (es ++ es') = released es ++ released es'.
Proof.
  induction es as [| e es IH]; [reflexivity |].
  destruct e; cbn; rewrite ?IH; reflexivity.
Qed.

Lemma path_puts_app es es' :
  path_puts (es ++ es') = path_puts es ++ path_puts es'.
Proof.
  induction es as [| e es IH]; [reflexivity |].
  destruct e; cbn; rewrite ?IH; reflexivity.
Qed.

(* the calls of the dispatcher touch no reference *)
Lemma dispatch_events_hold_nothing es :
  forallb is_dispatch_event es = true ->
  pinned es = [] /\ released es = [] /\ path_puts es = [].
Proof.
  induction es as [| e es IH]; [auto |].
  cbn [forallb]. intros H. apply andb_true_iff in H. destruct H as [He Hes].
  destruct (IH Hes) as (P & R & Q).
  destruct e; cbn in He; try discriminate He; cbn; auto.
Qed.

Section References.

Variable E : kenv.

(* quotactl_block either fails and leaves the world as it is, or pins
   one super block *)
Lemma quotactl_block_run special cmd w :
  (exists err, quotactl_block E special cmd w = Ret (inl err) w) \/
  (exists sb, quotactl_block E special cmd w =
              Ret (inr sb)
                  (add_log w [EvGetSuper (s_dev sb) (quotactl_cmd_write cmd)])).
Proof.
  unfold quotactl_block, bind, get_user_mem.
  destruct (getname E (w_user w) special) as [err | name]; [left; eauto |].
  destruct (lookup_bdev E name) as [err | bdev]; [left; eauto |].
  destruct (if quotactl_cmd_write cmd then get_super_thawed E bdev
            else get_super E bdev) as [sb |]; [| left; eauto].
  right. exists sb. reflexivity.
Qed.

Lemma records_iterate_sync l type :
  records is_dispatch_event (iterate_over l quota_sync_one type).
Proof.
  induction l as [| sb l IH]; cbn [iterate_over]; [frame |].
  apply records_bind; [unfold quota_sync_one; frame | intros _; exact IH].
Qed.

Lemma returns_iterate_sync l type :
  returns (iterate_over l quota_sync_one type).
Proof.
  induction l as [| sb l IH]; cbn [iterate_over]; [frame |].
  apply returns_bind; [unfold quota_sync_one; frame | intros _; exact IH].
Qed.

Lemma quota_sync_all_records type :
  records is_dispatch_event (quota_sync_all E type).
Proof.
  unfold quota_sync_all, call_security, iterate_supers.
  destruct (type >=? MAXQUOTAS); [frame |].
  apply records_bind; [frame | intros r].
  apply records_bind; [| intros; frame].
  destruct (r =? 0); [apply records_iterate_sync | frame].
Qed.

Lemma quota_sync_all_returns type : returns (quota_sync_all E type).
Proof.
  unfold quota_sync_all, call_security, iterate_supers.
  destruct (type >=? MAXQUOTAS); [frame |].
  apply returns_bind; [frame | intros r].
  apply returns_bind; [| intros; frame].
  destruct (r =? 0); [apply returns_iterate_sync | frame].
Qed.

(* a run of the native path: it comes back, every super block it pinned
   is released, and the resolved path is released *)
Lemma quotactl_native_run cmds type special id addr w :
  exists r m es,
    quotactl_native E cmds type special id addr w =
    Ret r {| w_user := m; w_log := w_log w ++ es |} /\
    released es = pinned es /\
    (length (pinned es) <= 1)%nat /\
    path_puts es =
    (if special =? 0 then [] else paths_to_put (resolved_path E cmds addr w)).
Proof.
  unfold quotactl_native.
  destruct (special =? 0).
  - assert (Hc : exists r m es,
        (if cmds =? Q_SYNC then quota_sync_all E type else ret (- ENODEV)) w =
        Ret r {| w_user := m; w_log := w_log w ++ es |} /\
        forallb is_dispatch_event es = true).
    { destruct (cmds =? Q_SYNC).
      - destruct (quota_sync_all_returns type w) as (r & w' & Hr).
        destruct (quota_sync_all_records type w) as (es & Hok & Hlog).
        rewrite Hr in Hlog. cbn in Hlog. rewrite Hr.
        exists r, (w_user w'), es. destruct w'. cbn in *. subst. auto.
      - exists (- ENODEV), (w_user w), []. unfold ret. destruct w. cbn.
        rewrite app_nil_r. auto. }
    destruct Hc as (r & m & es & Hrun & Hok).
    destruct (dispatch_events_hold_nothing es Hok) as (P & R & Q).
    exists r, m, es. rewrite Hrun, P, R, Q. cbn. auto.
  - unfold bind at 1.
    assert (Hp : (if cmds =? Q_QUOTAON
                  then bind get_user_mem (fun m =>
                         let (r, p) := user_path_at E m addr in
                         if negb (r =? 0) then ret (PathErr r)
                         else ret (PathOk p))
                  else ret PathNull) w =
                 Ret (resolved_path E cmds addr w) w).
    { unfold resolved_path, bind, get_user_mem, ret.
      destruct (cmds =? Q_QUOTAON); [| reflexivity].
      destruct (user_path_at E (w_user w) addr) as [r p]. cbn [fst snd].
      destruct (r =? 0); reflexivity. }
    rewrite Hp. clear Hp.
    set (pathp := resolved_path E cmds addr w).
    unfold bind.
    destruct (quotactl_block_run special cmds w) as [[err Hb] | [sb Hb]];
      rewrite Hb.
    + exists err, (w_user w).
      destruct pathp as [| e | p].
      * exists []. unfold ret. destruct w; cbn. rewrite app_nil_r. auto.
      * exists []. unfold ret. destruct w; cbn. rewrite app_nil_r. auto.
      * exists [EvPathPut p]. unfold ret. cbn. auto.
    + set (w1 := add_log w [EvGetSuper (s_dev sb) (quotactl_cmd_write cmds)]).
      destruct (do_quotactl_comes_back E sb type cmds id addr pathp w1)
        as (r & w2 & Hr).
      destruct (do_quotactl_records E sb type cmds id addr pathp w1)
        as (es & Hok & Hlog).
      rewrite Hr in Hlog. cbn [world_of] in Hlog. rewrite Hr.
      destruct (dispatch_events_hold_nothing es Hok) as (P & R & Q).
      exists r, (w_user w2).
      exists ([EvGetSuper (s_dev sb) (quotactl_cmd_write cmds)] ++ es ++
              [EvDropSuper (s_dev sb)] ++ map EvPathPut (paths_to_put pathp)).
      rewrite !pinned_app, !released_app, !path_puts_app, P, R, Q.
      unfold drop_super, emit, ret. cbn [w_user w_log].
      rewrite Hlog. unfold w1. cbn [add_log w_log].
      destruct pathp as [| e | p]; cbn;
        rewrite <- ?app_assoc; cbn; rewrite ?app_nil_r; auto.
Qed.

(* the legacy cases that look up the super block release it when they
   come back *)
Lemma with_super_run special cmds (body : super_block -> M Z) w r w' :
  (forall sb, records is_dispatch_event (body sb)) ->
  with_super E special cmds body w = Ret r w' ->
  exists es, w_log w' = w_log w ++ es /\
             released es = pinned es /\
             (length (pinned es) <= 1)%nat /\
             path_puts es = [].
Proof.
  intros Hbody. unfold with_super, bind.
  destruct (quotactl_block_run special cmds w) as [[err Hb] | [sb Hb]];
    rewrite Hb.
  - intros H. inversion H; subst. exists []. rewrite app_nil_r. cbn. auto.
  - set (w1 := add_log w [EvGetSuper (s_dev sb) (quotactl_cmd_write cmds)]).
    destruct (Hbody sb w1) as (es & Hok & Hlog).
    destruct (body sb w1) as [v w2 | w2]; [| discriminate].
    cbn [world_of] in Hlog.
    unfold drop_super, emit, ret. intros H. inversion H; subst.
    destruct (dispatch_events_hold_nothing es Hok) as (P & R & Q).
    exists ([EvGetSuper (s_dev sb) (quotactl_cmd_write cmds)] ++ es ++
            [EvDropSuper (s_dev sb)]).
    rewrite !pinned_app, !released_app, !path_puts_app, P, R, Q.
    cbn [w_log]. rewrite Hlog. unfold w1. cbn.
    rewrite <- !app_assoc. cbn. auto.
Qed.

Lemma compat_bodies_record cmds type id addr sb :
  records is_dispatch_event (compat_getquota E type id addr sb) /\
  records is_dispatch_event (compat_setquota E cmds type id addr sb) /\
  records is_dispatch_event (compat_getinfo E type id addr sb) /\
  records is_dispatch_event (compat_setinfo E cmds type id addr sb).
Proof.
  unfold compat_getquota, compat_setquota, compat_getinfo, compat_setinfo,
    put_struct, get_struct.
  repeat split;
    (apply records_bind; [apply check_permission_records | intros; frame]).
Qed.

(* a run of the legacy layer that comes back has released what it
   pinned *)
Lemma compat_quotactl_run cmds type special id addr w r w' :
  compat_quotactl E (sys_quotactl_reentered E) cmds type special id addr w =
  Ret r w' ->
  exists es, w_log w' = w_log w ++ es /\
             released es = pinned es /\
             (length (pinned es) <= 1)%nat.
Proof.
  assert (Hnat : forall c w r w',
            sys_quotactl_reentered E c special id addr w = Ret r w' ->
            exists es, w_log w' = w_log w ++ es /\
                       released es = pinned es /\
                       (length (pinned es) <= 1)%nat).
  { intros c w1 r1 w1' H. unfold sys_quotactl_reentered in H.
    destruct (quotactl_native_run (Z.shiftr (u32 c) SUBCMDSHIFT)
                (Z.land (u32 c) SUBCMDMASK) special id addr w1)
      as (r2 & m & es & Hrun & Hrel & Hlen & _).
    rewrite Hrun in H. inversion H; subst. exists es. cbn. auto. }
  assert (Hsup : forall body w r w',
            (forall sb, records is_dispatch_event (body sb)) ->
            with_super E special cmds body w = Ret r w' ->
            exists es, w_log w' = w_log w ++ es /\
                       released es = pinned es /\
                       (length (pinned es) <= 1)%nat).
  { intros body w1 r1 w1' Hb H.
    destruct (with_super_run special cmds body w1 r1 w1' Hb H)
      as (es & H1 & H2 & H3 & _). eauto. }
  unfold compat_quotactl.
  destruct (cmds =? QC_QUOTAON); [apply Hnat |].
  destruct (cmds =? QC_QUOTAOFF); [apply Hnat |].
  destruct (cmds =? QC_SYNC); [apply Hnat |].
  destruct (cmds =? QC_GETQUOTA);
    [apply Hsup; intros sb; apply (compat_bodies_record cmds type id addr sb) |].
  destruct ((cmds =? QC_SETQUOTA) || (cmds =? QC_SETUSE) || (cmds =? QC_SETQLIM));
    [apply Hsup; intros sb; apply (compat_bodies_record cmds type id addr sb) |].
  destruct (cmds =? QC_GETINFO);
    [apply Hsup; intros sb; apply (compat_bodies_record cmds type id addr sb) |].
  destruct ((cmds =? QC_SETINFO) || (cmds =? QC_SETGRACE) || (cmds =? QC_SETFLAGS));
    [apply Hsup; intros sb; apply (compat_bodies_record cmds type id addr sb) |].
  assert (Hrec : records is_dispatch_event
                   (if cmds =? QC_GETSTATS then compat_getstats addr
                    else ret (- ENOSYS)))
    by (unfold compat_getstats, put_struct; frame).
  intros H. destruct (Hrec w) as (es & Hok & Hlog).
  rewrite H in Hlog. cbn [world_of] in Hlog.
  destruct (dispatch_events_hold_nothing es Hok) as (P & R & _).
  exists es. rewrite P, R. cbn. auto.
Qed.

End References.

(** X11: every run of the system call that comes back has released
    exactly the super blocks it pinned, and it pins at most one: the
    reference taken by quotactl_block is dropped on every exit path of the
    native dispatcher and of the legacy layer. *)
Theorem sys_quotactl_pin_release (E : kenv) (cmd special id addr : Z)
    (w w' : world) (r : Z) :
  sys_quotactl E cmd special id addr w = Ret r w' ->
  exists es, w_log w' = w_log w ++ es /\
             released es = pinned es /\
             (length (pinned es) <= 1)%nat.
Proof.
  unfold sys_quotactl.
  destruct (is_compat_cmd (Z.shiftr (u32 cmd) SUBCMDSHIFT)).
  - apply compat_quotactl_run.
  - intros H.
    destruct (quotactl_native_run E (Z.shiftr (u32 cmd) SUBCMDSHIFT)
                (Z.land (u32 cmd) SUBCMDMASK) special id addr w)
      as (r2 & m & es & Hrun & Hrel & Hlen & _).
    rewrite Hrun in H. inversion H; subst. exists es. cbn. auto.
Qed.

Lemma sys_quotactl_pin_release_witness :
  sys_quotactl user_kernel (QCMD Q_GETQUOTA USRQUOTA) 4096 1000 8192 w0 =
  Ret 0 (world_of (sys_quotactl user_kernel (QCMD Q_GETQUOTA USRQUOTA)
                     4096 1000 8192 w0)) /\
  exists es,
    log_of (sys_quotactl user_kernel (QCMD Q_GETQUOTA USRQUOTA)
              4096 1000 8192 w0) = w_log w0 ++ es /\
    released es = pinned es /\ (length (pinned es) <= 1)%nat.
Proof.
  assert (Hrun :
    sys_quotactl user_kernel (QCMD Q_GETQUOTA USRQUOTA) 4096 1000 8192 w0 =
    Ret 0 (world_of (sys_quotactl user_kernel (QCMD Q_GETQUOTA USRQUOTA)
                       4096 1000 8192 w0))) by (vm_compute; reflexivity).
  split; [exact Hrun |].
  exact (sys_quotactl_pin_release user_kernel (QCMD Q_GETQUOTA USRQUOTA)
           4096 1000 8192 w0 _ 0 Hrun).
Defined.

(** X12: for every command word that is not a legacy one, the system
    call comes back with a result, whatever the device, the filesystem
    and the caller's buffer are: on this path no NULL pointer is
    followed. *)
Theorem native_quotactl_returns (E : kenv) (cmd special id addr : Z) :
  is_compat_cmd (cmds_of cmd) = false ->
  returns (sys_quotactl E cmd special id addr).
Proof.
  intros Hc w. unfold sys_quotactl. unfold cmds_of in Hc. rewrite Hc.
  destruct (quotactl_native_run E (Z.shiftr (u32 cmd) SUBCMDSHIFT)
              (Z.land (u32 cmd) SUBCMDMASK) special id addr w)
    as (r & m & es & Hrun & _).
  eauto.
Qed.

Lemma native_quotactl_returns_witness :
  is_compat_cmd (cmds_of (QCMD Q_SETQUOTA USRQUOTA)) = false /\
  exists a w', sys_quotactl user_kernel (QCMD Q_SETQUOTA USRQUOTA)
                 4096 1000 8192 w0 = Ret a w'.
Proof.
  split; [reflexivity |].
  exact (native_quotactl_returns user_kernel (QCMD Q_SETQUOTA USRQUOTA)
           4096 1000 8192 eq_refl w0).
Defined.

(** X13: on the native path the system call releases a path exactly
    when it resolved one, that is for Q_QUOTAON with a device given and
    user_path_at succeeding; it does so once, on every exit path (device
    lookup failed, request refused, filesystem called), and it releases no
    path otherwise. *)
Theorem quotaon_path_released (E : kenv) (cmd special id addr : Z)
    (w : world) :
  is_compat_cmd (cmds_of cmd) = false ->
  exists es,
    log_of (sys_quotactl E cmd special id addr w) = w_log w ++ es /\
    path_puts es =
    (if special =? 0 then []
     else paths_to_put (resolved_path E (cmds_of cmd) addr w)).
Proof.
  intros Hc. unfold sys_quotactl. unfold cmds_of in *. rewrite Hc.
  destruct (quotactl_native_run E (Z.shiftr (u32 cmd) SUBCMDSHIFT)
              (Z.land (u32 cmd) SUBCMDMASK) special id addr w)
    as (r & m & es & Hrun & _ & _ & Hp).
  exists es. rewrite Hrun. cbn. auto.
Qed.

Lemma quotaon_path_released_witness :
  is_compat_cmd (cmds_of (QCMD Q_QUOTAON USRQUOTA)) = false /\
  exists es,
    log_of (sys_quotactl user_kernel (QCMD Q_QUOTAON USRQUOTA)
              4096 0 8192 w0) = w_log w0 ++ es /\
    path_puts es = [1].
Proof.
  split; [reflexivity |].
  exact (quotaon_path_released user_kernel (QCMD Q_QUOTAON USRQUOTA)
           4096 0 8192 w0 eq_refl).
Defined.

(** ** More on the legacy layer *)

(** X14: on a filesystem without a capability table (sb->s_qcop is
    NULL), a legacy QC_GETINFO request that passes the permission check,
    and a legacy QC_GETQUOTA request that passes it for an identity that
    maps to a valid quota id, follow the NULL pointer: compat_quotactl
    calls sb->s_qcop->get_dqblk and ->get_info without testing them.  The
    primary commands Q_GETQUOTA and Q_GETINFO, with a class index below
    MAXQUOTAS, return -ENOSYS on the same filesystem. *)
Theorem legacy_get_follows_null (E : kenv) (sb : super_block)
    (type id addr : Z) (w : world) :
  s_qcop sb = None ->
  privilege_grants E type Q_GETQUOTA id = true ->
  security_quotactl E Q_GETQUOTA type (s32 id) (Some sb) = 0 ->
  (qid_valid E (make_kqid E type id) = true ->
   compat_getquota E type id addr sb w =
   Oops (add_log w [EvSecurity Q_GETQUOTA type (s32 id) (Some (s_dev sb))])) /\
  compat_getinfo E type id addr sb w =
  Oops (add_log w [EvSecurity Q_GETQUOTA type (s32 id) (Some (s_dev sb))]) /\
  (type < MAXQUOTAS ->
   do_quotactl E sb type Q_GETQUOTA id addr PathNull w = Ret (- ENOSYS) w /\
   do_quotactl E sb type Q_GETINFO id addr PathNull w = Ret (- ENOSYS) w).
Proof.
  intros Hq Hp Hh.
  unfold compat_getquota, compat_getinfo, bind.
  rewrite check_quotactl_permission_run, Hp, Hh. cbn [Z.eqb negb].
  unfold deref. rewrite Hq.
  split; [intros ->; reflexivity |].
  split; [reflexivity |].
  intros Ht. unfold do_quotactl. rewrite Hq.
  change (max_quotas Q_GETQUOTA) with MAXQUOTAS.
  change (max_quotas Q_GETINFO) with MAXQUOTAS.
  destruct (Z.geb_spec type MAXQUOTAS); [lia |].
  split; reflexivity.
Qed.

Lemma legacy_get_follows_null_witness :
  s_qcop sb_no_quota = None /\
  privilege_grants user_kernel 0 Q_GETQUOTA 1000 = true /\
  compat_getinfo user_kernel 0 1000 8192 sb_no_quota w0 =
  Oops (add_log w0 [EvSecurity Q_GETQUOTA 0 1000 (Some 11)]).
Proof.
  split; [reflexivity |].
  split; [reflexivity |].
  exact (proj1 (proj2 (legacy_get_follows_null user_kernel sb_no_quota
                         0 1000 8192 w0 eq_refl eq_refl eq_refl))).
Defined.

(** X15: a legacy set command that reaches the filesystem asks it to set
    the limits (QC_SETQLIM), the usage counts (QC_SETUSE) or both
    (QC_SETQUOTA), and never the grace timers: the timer bits of the field
    mask passed to set_dqblk are clear, so the timers of the record, which
    compat_quotactl leaves uninitialised, are not applied. *)
Theorem legacy_set_field_mask (E : kenv) (cmds type id addr : Z)
    (sb : super_block) (q : quotactl_ops)
    (f : kqid -> fs_disk_quota -> Z) (w : world) :
  In cmds [QC_SETQUOTA; QC_SETUSE; QC_SETQLIM] ->
  privilege_grants E type Q_GETQUOTA id = true ->
  security_quotactl E Q_GETQUOTA type (s32 id) (Some sb) = 0 ->
  snd (read_bytes (w_user w) addr (sizeof (T := compat_dqblk))) = 0 ->
  qid_valid E (make_kqid E type id) = true ->
  s_qcop sb = Some q ->
  set_dqblk q = Some f ->
  exists fdq,
    compat_setquota E cmds type id addr sb w =
    Ret (f (make_kqid E type id) fdq)
        (add_log w [EvSecurity Q_GETQUOTA type (s32 id) (Some (s_dev sb));
                    EvSetDqblk (s_dev sb) (make_kqid E type id) fdq]) /\
    d_fieldmask fdq = legacy_field_mask cmds /\
    Z.land (d_fieldmask fdq) FS_DQ_TIMERS = 0.
Proof.
  intros Hin Hp Hhook Hread Hvalid Hq Hf.
  unfold compat_setquota, bind.
  rewrite check_quotactl_permission_run, Hp, Hhook.
  cbn [Z.eqb negb].
  unfold get_struct, bind, copy_from_user, ret.
  cbn [w_user add_log].
  remember (read_bytes (w_user w) addr sizeof) as rb eqn:Hrb.
  cbn [snd fst]. rewrite Hread. cbn [Z.eqb negb].
  rewrite Hvalid. cbn [negb].
  rewrite Hq. unfold deref. rewrite Hf. rewrite emit_run, add_log_app.
  eexists. split; [reflexivity |].
  cbn [d_fieldmask copy_from_if_dqblk dqb_valid].
  unfold legacy_field_mask.
  destruct Hin as [<- | [<- | [<- | []]]]; split; reflexivity.
Qed.

Lemma legacy_set_field_mask_witness :
  In QC_SETUSE [QC_SETQUOTA; QC_SETUSE; QC_SETQLIM] /\
  privilege_grants user_kernel 0 Q_GETQUOTA 1000 = true /\
  snd (read_bytes (w_user w0) 8192 (sizeof (T := compat_dqblk))) = 0 /\
  exists fdq,
    compat_setquota user_kernel QC_SETUSE 0 1000 8192 sb_full w0 =
    Ret 0 (add_log w0 [EvSecurity Q_GETQUOTA 0 1000 (Some 8);
                       EvSetDqblk 8 {| kq_type := 0; kq_id := 1000 |} fdq]) /\
    d_fieldmask fdq = FS_DQ_COUNTS /\
    Z.land (d_fieldmask fdq) FS_DQ_TIMERS = 0.
Proof.
  assert (Hin : In QC_SETUSE [QC_SETQUOTA; QC_SETUSE; QC_SETQLIM])
    by (cbn; auto).
  assert (Hr : snd (read_bytes (w_user w0) 8192 (sizeof (T := compat_dqblk))) = 0)
    by (vm_compute; reflexivity).
  split; [exact Hin |].
  split; [reflexivity |].
  split; [exact Hr |].
  exact (legacy_set_field_mask user_kernel QC_SETUSE 0 1000 8192 sb_full
           full_ops (fun _ _ => 0) w0 Hin eq_refl eq_refl Hr eq_refl eq_refl
           eq_refl).
Defined.

(** X16: the legacy commands QC_GETQUOTA and QC_GETINFO are held to the
    rule of Q_GETQUOTA: a caller without CAP_SYS_ADMIN that does not name
    its own identity gets -EPERM and nothing is consulted or called,
    although the primary Q_GETINFO needs no privilege and goes straight to
    the security hook. *)
Theorem legacy_get_needs_own_identity (E : kenv) (sb : super_block)
    (type id addr : Z) (w : world) :
  capable E CAP_SYS_ADMIN = false ->
  ~ queries_own_identity E type id ->
  compat_getquota E type id addr sb w = Ret (- EPERM) w /\
  compat_getinfo E type id addr sb w = Ret (- EPERM) w /\
  check_quotactl_permission E sb type Q_GETINFO id w =
  Ret (security_quotactl E Q_GETINFO type (s32 id) (Some sb))
      (add_log w [EvSecurity Q_GETINFO type (s32 id) (Some (s_dev sb))]).
Proof.
  intros Hcap Hown.
  assert (Hp : privilege_grants E type Q_GETQUOTA id = false).
  { rewrite privilege_get_record, Hcap, orb_false_r.
    destruct (owns_dquot E type id) eqn:Ho; [| reflexivity].
    exfalso. apply Hown. apply owns_dquot_spec. exact Ho. }
  unfold compat_getquota, compat_getinfo, bind.
  rewrite !check_quotactl_permission_run, Hp.
  repeat split.
Qed.

Lemma legacy_get_needs_own_identity_witness :
  capable user_kernel CAP_SYS_ADMIN = false /\
  ~ queries_own_identity user_kernel 0 1001 /\
  compat_getinfo user_kernel 0 1001 8192 sb_full w0 = Ret (- EPERM) w0.
Proof.
  assert (Hother : ~ queries_own_identity user_kernel 0 1001)
    by (intros [[_ H] | [H _]]; discriminate H).
  split; [reflexivity |].
  split; [exact Hother |].
  exact (proj1 (proj2 (legacy_get_needs_own_identity user_kernel sb_full
                         0 1001 8192 w0 eq_refl Hother))).
Defined.

(** ** Command words *)

(** X17: what QCMD packs, the system call unpacks: for every command
    word below 2^24 and every class index, the shift gives back the
    command and the mask gives the low eight bits of the class. *)
Theorem QCMD_unpack (cmd type : Z) :
  0 <= cmd < 2 ^ 24 ->
  cmds_of (QCMD cmd type) = cmd /\
  type_of (QCMD cmd type) = Z.land type SUBCMDMASK /\
  (0 <= type < 256 -> type_of (QCMD cmd type) = type).
Proof.
  intros Hc. unfold cmds_of, type_of.
  rewrite QCMD_cmds, QCMD_type.
  split; [| split].
  - rewrite Z.land_ones by lia. apply Z.mod_small. exact Hc.
  - reflexivity.
  - intros Ht. change SUBCMDMASK with (Z.ones 8).
    rewrite Z.land_ones by lia. apply Z.mod_small.
    change (2 ^ 8) with 256. exact Ht.
Qed.

Lemma QCMD_unpack_witness :
  0 <= Q_GETQUOTA < 2 ^ 24 /\
  cmds_of (QCMD Q_GETQUOTA GRPQUOTA) = Q_GETQUOTA /\
  type_of (QCMD Q_GETQUOTA GRPQUOTA) = GRPQUOTA.
Proof.
  assert (Hc : 0 <= Q_GETQUOTA < 2 ^ 24) by (vm_compute; split; congruence).
  assert (Ht : 0 <= GRPQUOTA < 256) by (vm_compute; split; congruence).
  split; [exact Hc |].
  split.
  - exact (proj1 (QCMD_unpack Q_GETQUOTA GRPQUOTA Hc)).
  - exact (proj2 (proj2 (QCMD_unpack Q_GETQUOTA GRPQUOTA Hc)) Ht).
Defined.

(** X18: the legacy commands QC_QUOTAON, QC_QUOTAOFF and QC_SYNC are the
    primary commands Q_QUOTAON, Q_QUOTAOFF and Q_SYNC under another name:
    the system call does the same with either word, for every class,
    device, identity and buffer, and in every world.  The nested system
    call that compat_quotactl makes never enters the legacy layer
    again. *)
Theorem legacy_renamed_commands_agree (E : kenv) (type special id addr : Z) :
  Forall (fun c =>
    is_compat_cmd (cmds_of (QCMD (fst c) type)) = true /\
    is_compat_cmd (cmds_of (QCMD (snd c) type)) = false /\
    forall w, sys_quotactl E (QCMD (fst c) type) special id addr w =
              sys_quotactl E (QCMD (snd c) type) special id addr w)
    legacy_renamed_commands.
Proof.
  assert (Hre : forall q, In q [Q_QUOTAON; Q_QUOTAOFF; Q_SYNC] ->
            forall w,
            sys_quotactl_reentered E (QCMD q (Z.land type SUBCMDMASK))
              special id addr w =
            sys_quotactl E (QCMD q type) special id addr w).
  { intros q Hq w. rewrite (QCMD_not_compat E q type special id addr Hq).
    unfold sys_quotactl_reentered.
    rewrite !QCMD_cmds, !QCMD_type, <- Z.land_assoc.
    reflexivity. }
  assert (Hone : forall qc q,
            In q [Q_QUOTAON; Q_QUOTAOFF; Q_SYNC] ->
            is_compat_cmd (Z.land qc (Z.ones 24)) = true ->
            is_compat_cmd (Z.land q (Z.ones 24)) = false ->
            (forall sys cmds,
               compat_quotactl E sys (Z.land qc (Z.ones 24)) cmds special id addr =
               sys (QCMD q cmds) special id addr) ->
            is_compat_cmd (cmds_of (QCMD qc type)) = true /\
            is_compat_cmd (cmds_of (QCMD q type)) = false /\
            forall w, sys_quotactl E (QCMD qc type) special id addr w =
                      sys_quotactl E (QCMD q type) special id addr w).
  { intros qc q Hq Hqc Hnq Hcase. unfold cmds_of. rewrite !QCMD_cmds.
    split; [exact Hqc |]. split; [exact Hnq |].
    intros w. unfold sys_quotactl at 1.
    rewrite QCMD_cmds, QCMD_type, Hqc, Hcase.
    apply Hre. exact Hq. }
  unfold legacy_renamed_commands.
  constructor; [| constructor; [| constructor; [| constructor]]]; cbn [fst snd].
  - apply Hone; [cbn; auto | reflexivity | reflexivity |].
    intros sys cmds. reflexivity.
  - apply Hone; [cbn; auto | reflexivity | reflexivity |].
    intros sys cmds. reflexivity.
  - apply Hone; [cbn; auto | reflexivity | reflexivity |].
    intros sys cmds. reflexivity.
Qed.

(** X19: without a device (special is NULL) a sync, sent with the primary
    or with the legacy command word, is the broadcast sync on the low
    eight bits of the class; every other command that is not a legacy one
    returns -ENODEV and does nothing. *)
Theorem quotactl_without_device (E : kenv) (type id addr : Z) :
  (forall w, sys_quotactl E (QCMD Q_SYNC type) 0 id addr w =
             quota_sync_all E (Z.land type SUBCMDMASK) w) /\
  (forall w, sys_quotactl E (QCMD QC_SYNC type) 0 id addr w =
             quota_sync_all E (Z.land type SUBCMDMASK) w) /\
  (forall cmd w,
     is_compat_cmd (cmds_of cmd) = false ->
     cmds_of cmd <> Q_SYNC ->
     sys_quotactl E cmd 0 id addr w = Ret (- ENODEV) w).
Proof.
  destruct (broadcast_sync_entry E type id addr) as [H1 H2].
  split; [intros w; rewrite H1; reflexivity |].
  split; [intros w; rewrite H2; reflexivity |].
  intros cmd w Hc Hs. unfold sys_quotactl. unfold cmds_of in *.
  rewrite Hc. unfold quotactl_native. cbn [Z.eqb].
  apply Z.eqb_neq in Hs. rewrite Hs. reflexivity.
Qed.

Lemma quotactl_without_device_witness :
  is_compat_cmd (cmds_of (QCMD Q_GETFMT USRQUOTA)) = false /\
  cmds_of (QCMD Q_GETFMT USRQUOTA) <> Q_SYNC /\
  sys_quotactl admin_kernel (QCMD Q_GETFMT USRQUOTA) 0 0 8192 w0 =
  Ret (- ENODEV) w0.
Proof.
  assert (Hs : cmds_of (QCMD Q_GETFMT USRQUOTA) <> Q_SYNC)
    by (vm_compute; discriminate).
  split; [reflexivity |].
  split; [exact Hs |].
  exact (proj2 (proj2 (quotactl_without_device admin_kernel 0 0 8192))
           (QCMD Q_GETFMT USRQUOTA) w0 eq_refl Hs).
Defined.

(** ** One call for one request *)

Lemma quiet_nothing {A} (c : M A) w :
  quiet c -> w_log (world_of (c w)) = w_log w.
Proof.
  intros H. destruct (H w) as (es & Hok & Hlog).
  destruct es as [| e es]; [| discriminate Hok].
  rewrite Hlog. apply app_nil_r.
Qed.

Lemma calls_once_quiet {A} (c : M A) : quiet c -> calls_once c.
Proof.
  intros H w. exists []. rewrite (quiet_nothing c w H), app_nil_r. cbn. auto.
Qed.

Lemma calls_once_bind_quiet {A B} (c : M A) (k : A -> M B) :
  quiet c -> (forall a, calls_once (k a)) -> calls_once (bind c k).
Proof.
  intros Hc Hk w. rewrite world_of_bind.
  pose proof (quiet_nothing c w Hc) as Hq.
  destruct (c w) as [a w1 | w1]; cbn [world_of] in Hq.
  - destruct (Hk a w1) as (es & H1 & H2 & H3).
    exists es. rewrite H3, Hq. auto.
  - exists []. rewrite Hq, app_nil_r. cbn. auto.
Qed.

Lemma calls_once_emit {B} e (k : unit -> M B) :
  is_qcop_call e = true -> (forall a, quiet (k a)) ->
  calls_once (bind (emit e) k).
Proof.
  intros He Hk w. rewrite world_of_bind, emit_run.
  exists [e]. rewrite (quiet_nothing (k tt) _ (Hk tt)). cbn. rewrite He. auto.
Qed.

(* one step through a handler that calls the filesystem at most once *)
Ltac once_step :=
  match goal with
  | |- calls_once (bind (emit _) _) =>
      apply calls_once_emit; [reflexivity | intros; unfold quiet; frame]
  | |- calls_once (bind _ _) =>
      apply calls_once_bind_quiet; [unfold quiet; frame | intros]
  | |- calls_once (ret _) => apply calls_once_quiet; unfold quiet; frame
  | |- calls_once (if ?b then _ else _) => destruct b
  | |- calls_once (match ?x with _ => _ end) => destruct x
  end.

Lemma switch_calls_once (E : kenv) sb q type cmd id addr path :
  calls_once (do_quotactl_switch E sb q type cmd id addr path).
Proof.
  unfold do_quotactl_switch, quota_quotaon, quota_getfmt, quota_getinfo,
    quota_setinfo, quota_getquota, quota_setquota, quota_setxstate,
    quota_rmxquota, quota_getxstate, quota_getxstatev, quota_setxquota,
    quota_getxquota, put_struct, get_struct, get_u32.
  repeat once_step.
Qed.

(** X21: one request makes at most one consultation of the security hook
    and, after it, at most one call of the filesystem: whatever
    do_quotactl records is empty, or the hook, or the hook followed by a
    single operation of the capability table.  Nothing is retried. *)
Theorem do_quotactl_single_call (E : kenv) (sb : super_block)
    (type cmd id addr : Z) (path : path_ptr) (w : world) :
  exists hook calls,
    log_of (do_quotactl E sb type cmd id addr path w) =
    w_log w ++ hook ++ calls /\
    ((hook = [] /\ calls = []) \/
     hook = [EvSecurity cmd type (s32 id) (Some (s_dev sb))]) /\
    (length calls <= 1)%nat /\
    forallb is_qcop_call calls = true.
Proof.
  unfold log_of, do_quotactl.
  destruct (type >=? max_quotas cmd);
    [exists [], []; cbn; rewrite app_nil_r; auto |].
  destruct (s_qcop sb) as [q |];
    [| exists [], []; cbn; rewrite app_nil_r; auto].
  rewrite world_of_bind, check_quotactl_permission_run.
  destruct (privilege_grants E type cmd id);
    [| exists [], []; cbn; rewrite app_nil_r; auto].
  destruct (security_quotactl E cmd type (s32 id) (Some sb) <? 0).
  - exists [EvSecurity cmd type (s32 id) (Some (s_dev sb))], [].
    cbn. auto 6.
  - destruct (switch_calls_once E sb q type cmd id addr path
                (add_log w [EvSecurity cmd type (s32 id) (Some (s_dev sb))]))
      as (es & Hok & Hlen & Hlog).
    exists [EvSecurity cmd type (s32 id) (Some (s_dev sb))], es.
    rewrite Hlog. cbn [add_log w_log]. rewrite <- app_assoc.
    repeat split; auto.
Qed.

(** ** Operations the filesystem does not have *)

(** X22: an operation that is absent from the capability table is never
    called; the helper returns -ENOSYS and records nothing.  For the get
    helpers the world is unchanged; the set helpers have read the caller's
    buffer first.  quota_rmxquota also answers -ENOSYS when the operation
    exists but the super block does not have the remove flag.  (The set
    helpers are taken with a buffer that could be read.) *)
Theorem absent_operation_not_supported (E : kenv) (sb : super_block)
    (q : quotactl_ops) (type cmd id addr : Z) (path : path_ptr) (w : world) :
  s_qcop sb = Some q ->
  (quota_on q = None -> quota_on_meta q = None ->
   quota_quotaon sb type cmd id path w = Ret (- ENOSYS) w) /\
  (get_info q = None -> quota_getinfo sb type addr w = Ret (- ENOSYS) w) /\
  (get_dqblk q = None ->
   quota_getquota E sb type id addr w = Ret (- ENOSYS) w /\
   quota_getxquota E sb type id addr w = Ret (- ENOSYS) w) /\
  (get_xstate q = None -> quota_getxstate sb addr w = Ret (- ENOSYS) w) /\
  (get_xstatev q = None -> quota_getxstatev sb addr w = Ret (- ENOSYS) w) /\
  (set_info q = None ->
   snd (read_bytes (w_user w) addr (sizeof (T := if_dqinfo))) = 0 ->
   quota_setinfo sb type addr w = Ret (- ENOSYS) w) /\
  (set_dqblk q = None ->
   (snd (read_bytes (w_user w) addr (sizeof (T := if_dqblk))) = 0 ->
    quota_setquota E sb type id addr w = Ret (- ENOSYS) w) /\
   (snd (read_bytes (w_user w) addr (sizeof (T := fs_disk_quota))) = 0 ->
    quota_setxquota E sb type id addr w = Ret (- ENOSYS) w)) /\
  (snd (read_bytes (w_user w) addr 4) = 0 ->
   (set_xstate q = None ->
    quota_setxstate sb cmd addr w = Ret (- ENOSYS) w) /\
   (rm_xquota q = None \/ sb_has_rm_xquota sb = false ->
    quota_rmxquota sb addr w = Ret (- ENOSYS) w)).
Proof.
  intros Hq.
  unfold quota_quotaon, quota_getinfo, quota_getquota, quota_getxquota,
    quota_getxstate, quota_getxstatev, quota_setinfo, quota_setquota,
    quota_setxquota, quota_setxstate, quota_rmxquota, get_struct, get_u32,
    bind, deref, copy_from_user, ret.
  rewrite Hq. cbn [snd fst].
  split; [intros -> ->; reflexivity |].
  split; [intros ->; reflexivity |].
  split; [intros ->; split; reflexivity |].
  split; [intros ->; reflexivity |].
  split; [intros ->; reflexivity |].
  split; [intros -> ->; reflexivity |].
  split; [intros ->; split; intros ->; reflexivity |].
  intros ->. cbn [Z.eqb negb].
  split; [intros ->; reflexivity |].
  intros [-> | ->]; [| reflexivity].
  destruct (sb_has_rm_xquota sb); reflexivity.
Qed.

Lemma absent_operation_not_supported_witness :
  s_qcop sb_sync_only = Some sync_only_ops /\
  get_dqblk sync_only_ops = None /\
  quota_getquota user_kernel sb_sync_only 0 1000 8192 w0 = Ret (- ENOSYS) w0.
Proof.
  split; [reflexivity |].
  split; [reflexivity |].
  exact (proj1 (proj1 (proj2 (proj2 (absent_operation_not_supported
           user_kernel sb_sync_only sync_only_ops 0 0 1000 8192 PathNull w0
           eq_refl))) eq_refl)).
Defined.

(** X23: a legacy info command that reaches the filesystem asks it to
    set the two grace times (QC_SETGRACE), the flags (QC_SETFLAGS) or all
    three (QC_SETINFO): the validity mask handed to set_info is fixed by
    the command word alone. *)
Theorem legacy_setinfo_valid (E : kenv) (cmds type id addr : Z)
    (sb : super_block) (q : quotactl_ops)
    (f : Z -> if_dqinfo -> Z) (w : world) :
  In cmds [QC_SETINFO; QC_SETGRACE; QC_SETFLAGS] ->
  privilege_grants E type Q_GETQUOTA id = true ->
  security_quotactl E Q_GETQUOTA type (s32 id) (Some sb) = 0 ->
  snd (read_bytes (w_user w) addr (sizeof (T := compat_dqinfo))) = 0 ->
  s_qcop sb = Some q ->
  set_info q = Some f ->
  exists iinf,
    compat_setinfo E cmds type id addr sb w =
    Ret (f type iinf)
        (add_log w [EvSecurity Q_GETQUOTA type (s32 id) (Some (s_dev sb));
                    EvSetInfo (s_dev sb) type iinf]) /\
    dqi_valid iinf = legacy_info_valid cmds.
Proof.
  intros Hin Hp Hhook Hread Hq Hf.
  unfold compat_setinfo, bind.
  rewrite check_quotactl_permission_run, Hp, Hhook.
  cbn [Z.eqb negb].
  unfold get_struct, bind, copy_from_user, ret.
  cbn [w_user add_log].
  remember (read_bytes (w_user w) addr sizeof) as rb eqn:Hrb.
  cbn [snd fst]. rewrite Hread. cbn [Z.eqb negb].
  rewrite Hq. unfold deref. rewrite Hf. rewrite emit_run, add_log_app.
  eexists. split; [reflexivity |].
  cbn [dqi_valid]. unfold legacy_info_valid.
  destruct Hin as [<- | [<- | [<- | []]]]; reflexivity.
Qed.

Lemma legacy_setinfo_valid_witness :
  In QC_SETGRACE [QC_SETINFO; QC_SETGRACE; QC_SETFLAGS] /\
  snd (read_bytes (w_user w0) 8192 (sizeof (T := compat_dqinfo))) = 0 /\
  exists iinf,
    compat_setinfo user_kernel QC_SETGRACE 0 1000 8192 sb_full w0 =
    Ret 0 (add_log w0 [EvSecurity Q_GETQUOTA 0 1000 (Some 8);
                       EvSetInfo 8 0 iinf]) /\
    dqi_valid iinf = Z.lor IIF_BGRACE IIF_IGRACE.
Proof.
  assert (Hin : In QC_SETGRACE [QC_SETINFO; QC_SETGRACE; QC_SETFLAGS])
    by (cbn; auto).
  assert (Hr : snd (read_bytes (w_user w0) 8192 (sizeof (T := compat_dqinfo))) = 0)
    by (vm_compute; reflexivity).
  split; [exact Hin |].
  split; [exact Hr |].
  exact (legacy_setinfo_valid user_kernel QC_SETGRACE 0 1000 8192 sb_full
           full_ops (fun _ _ => 0) w0 Hin eq_refl eq_refl Hr eq_refl eq_refl).
Defined.

(** ** Writes to the caller's buffer *)

Lemma write_bytes_outside bs :
  forall m a x,
    x < a \/ a + Z.of_nat (length bs) <= x ->
    fst (write_bytes m a bs) x = m x.
Proof.
  induction bs as [| b bs IH]; intros m a x Hx; [reflexivity |].
  cbn [write_bytes]. destruct (m a); [| reflexivity].
  cbn [length] in Hx. rewrite IH by lia.
  unfold store. destruct (Z.eqb_spec x a); [lia | reflexivity].
Qed.

Lemma write_bytes_complete bs :
  forall m a, mapped m a (Z.of_nat (length bs)) ->
              snd (write_bytes m a bs) = 0.
Proof.
  induction bs as [| b bs IH]; intros m a Hm; [reflexivity |].
  cbn [write_bytes]. cbn [length] in Hm.
  destruct (m a) eqn:Ha; [| exfalso; apply (Hm a); [lia | exact Ha]].
  apply IH. intros i Hi. unfold store.
  destruct (i =? a); [discriminate | apply Hm; lia].
Qed.

Lemma length_le n z : length (le n z) = n.
Proof.
  revert z. induction n as [| n IH]; intros z; cbn; [| rewrite IH];
    reflexivity.
Qed.

Lemma length_bytes_at bs off len : (length (bytes_at bs off len) <= len)%nat.
Proof. unfold bytes_at. rewrite length_firstn. apply Nat.le_min_l. Qed.

Lemma within_ret {A} addr n (a : A) : writes_within addr n (ret a).
Proof. intros w x _. reflexivity. Qed.

Lemma within_bind {A B} addr n (c : M A) (k : A -> M B) :
  writes_within addr n c -> (forall a, writes_within addr n (k a)) ->
  writes_within addr n (bind c k).
Proof.
  intros Hc Hk w x Hx. rewrite world_of_bind. specialize (Hc w x Hx).
  destruct (c w) as [a w1 | w1]; cbn [world_of] in Hc.
  - rewrite (Hk a w1 x Hx). exact Hc.
  - exact Hc.
Qed.

Lemma within_keeps {A} addr n (c : M A) :
  keeps_user_memory c -> writes_within addr n c.
Proof. intros H w x _. rewrite H. reflexivity. Qed.

Lemma within_copy_to_user addr n bs :
  Z.of_nat (length bs) <= n -> writes_within addr n (copy_to_user addr bs).
Proof.
  intros Hl w x Hx. unfold copy_to_user.
  pose proof (write_bytes_outside bs (w_user w) addr x ltac:(lia)) as H.
  destruct (write_bytes (w_user w) addr bs) as [m c]. exact H.
Qed.

(* one step through a handler that writes to the buffer at [addr] *)
Ltac within_step :=
  match goal with
  | |- writes_within _ _ (bind _ _) => apply within_bind; [| intros]
  | |- writes_within _ _ (ret _) => apply within_ret
  | |- writes_within _ _ (emit _) => apply within_keeps, keeps_emit
  | |- writes_within _ _ (deref _) => apply within_keeps, keeps_deref
  | |- writes_within _ _ (copy_from_user _ _) =>
      apply within_keeps, keeps_copy_from_user
  | |- writes_within _ _ (copy_to_user _ _) => apply within_copy_to_user
  | |- writes_within _ _ (if ?b then _ else _) => destruct b
  | |- writes_within _ _ (match ?x with _ => _ end) => destruct x
  end.

(** X24: quota_getfmt does not need the capability table.  When quotas
    of the class are not active it returns -ESRCH and the world is
    unchanged.  When they are, it records nothing, returns 0 or -EFAULT,
    changes no byte of user memory outside the four bytes at the caller's
    address, and returns 0 whenever these four bytes are mapped. *)
Theorem quota_getfmt_behaviour (sb : super_block) (type addr : Z)
    (w : world) :
  (sb_has_quota_active sb type = false ->
   quota_getfmt sb type addr w = Ret (- ESRCH) w) /\
  (sb_has_quota_active sb type = true ->
   exists r m,
     quota_getfmt sb type addr w =
     Ret r {| w_user := m; w_log := w_log w |} /\
     (r = 0 \/ r = - EFAULT) /\
     (forall x, x < addr \/ addr + 4 <= x -> m x = w_user w x) /\
     (mapped (w_user w) addr 4 -> r = 0)).
Proof.
  unfold quota_getfmt. split; intros ->; cbn [negb]; [reflexivity |].
  unfold bind, copy_to_user.
  set (bs := le 4 (u32 (sb_fmt_id sb type))).
  pose proof (write_bytes_outside bs (w_user w) addr) as Hout.
  pose proof (write_bytes_complete bs (w_user w) addr) as Hok.
  destruct (write_bytes (w_user w) addr bs) as [m c].
  cbn [fst snd] in *.
  destruct (Z.eqb_spec c 0) as [-> | Hc].
  - exists 0, m.
    split; [reflexivity |]. split; [left; reflexivity |].
    split; [exact Hout | reflexivity].
  - exists (- EFAULT), m.
    split; [reflexivity |]. split; [right; reflexivity |].
    split; [exact Hout |].
    intros Hm. exfalso. apply Hc, Hok. exact Hm.
Qed.

Lemma quota_getfmt_behaviour_witness :
  sb_has_quota_active sb_no_quota 0 = true /\
  mapped (w_user w0) 8192 4 /\
  result_of (quota_getfmt sb_no_quota 0 8192 w0) = Some 0.
Proof.
  assert (Hm : mapped (w_user w0) 8192 4) by (intros i _; discriminate).
  split; [reflexivity |].
  split; [exact Hm |].
  destruct (proj2 (quota_getfmt_behaviour sb_no_quota 0 8192 w0) eq_refl)
    as (r & m & Hrun & _ & _ & Hr).
  rewrite Hrun, (Hr Hm). reflexivity.
Defined.

(** X25: the get helpers write only into the caller's buffer: whatever
    the filesystem answers, quota_getinfo changes no byte of user memory
    outside the 24 bytes at the caller's address, quota_getquota none
    outside 72, quota_getxstate none outside 80 and quota_getxquota none
    outside 112. *)
Theorem get_helpers_write_within_buffer (E : kenv) (sb : super_block)
    (type id addr : Z) :
  writes_within addr 24 (quota_getinfo sb type addr) /\
  writes_within addr 72 (quota_getquota E sb type id addr) /\
  writes_within addr 80 (quota_getxstate sb addr) /\
  writes_within addr 112 (quota_getxquota E sb type id addr).
Proof.
  unfold quota_getinfo, quota_getquota, quota_getxstate, quota_getxquota,
    put_struct.
  repeat split; repeat within_step;
    cbn [to_bytes wire_if_dqinfo wire_if_dqblk wire_fs_disk_quota];
    unfold with_padding;
    rewrite ?length_app, ?length_skipn, ?length_firstn, ?length_app,
      ?length_le, ?repeat_length.
  - cbn. lia.
  - lia.
  - unfold sizeof_fs_quota_stat. lia.
  - match goal with
    | |- context [bytes_at (d_other ?d) 0 2] =>
        pose proof (length_bytes_at (d_other d) 0 2);
        pose proof (length_bytes_at (d_other d) 2 4);
        pose proof (length_bytes_at (d_other d) 6 48)
    end.
    lia.
Qed.

(* a copy that leaves no byte behind found every byte mapped *)
Lemma write_bytes_mapped bs :
  forall m a, snd (write_bytes m a bs) = 0 ->
              mapped m a (Z.of_nat (length bs)).
Proof.
  induction bs as [| b bs IH]; intros m a Hs i Hi; [cbn in Hi; lia |].
  cbn [write_bytes] in Hs. cbn [length] in Hi.
  destruct (m a) eqn:Ha.
  - destruct (Z.eq_dec i a) as [-> | Hne]; [congruence |].
    specialize (IH (store m a b) (a + 1) Hs i ltac:(lia)).
    unfold store in IH. destruct (Z.eqb_spec i a); [lia | exact IH].
  - cbn [snd length] in Hs. lia.
Qed.

(** X20: the legacy QC_GETSTATS needs no device, no permission and no
    filesystem: for every caller, class, device and identity the system
    call consults and calls nothing.  It returns 0 when the 36 bytes at
    the caller's address are mapped and -EFAULT when they are not, and it
    changes no byte of user memory outside these 36 bytes. *)
Theorem legacy_getstats_is_free (E : kenv) (type special id addr : Z)
    (w : world) :
  exists r m,
    sys_quotactl E (QCMD QC_GETSTATS type) special id addr w =
    Ret r {| w_user := m; w_log := w_log w |} /\
    (mapped (w_user w) addr 36 -> r = 0) /\
    (~ mapped (w_user w) addr 36 -> r = - EFAULT) /\
    (forall x, x < addr \/ addr + 36 <= x -> m x = w_user w x).
Proof.
  unfold sys_quotactl. rewrite QCMD_cmds.
  change (is_compat_cmd (Z.land QC_GETSTATS (Z.ones 24))) with true.
  cbv iota. unfold compat_quotactl.
  change (Z.land QC_GETSTATS (Z.ones 24)) with QC_GETSTATS.
  decide_eqb. cbn [orb]. cbv iota.
  unfold compat_getstats, put_struct, bind, copy_to_user.
  set (bs := to_bytes _).
  assert (Hlen : Z.of_nat (length bs) = 36) by reflexivity.
  pose proof (write_bytes_outside bs (w_user w) addr) as Hout.
  pose proof (write_bytes_complete bs (w_user w) addr) as Hok.
  pose proof (write_bytes_mapped bs (w_user w) addr) as Hmapped.
  rewrite Hlen in *.
  destruct (write_bytes (w_user w) addr bs) as [m c].
  cbn [fst snd] in *.
  destruct (Z.eqb_spec c 0) as [-> | Hc].
  - exists 0, m.
    split; [reflexivity |]. split; [reflexivity |].
    split; [| exact Hout].
    intros Hn. exfalso. apply Hn, Hmapped. reflexivity.
  - exists (- EFAULT), m.
    split; [reflexivity |].
    split; [intros Hm; exfalso; apply Hc, Hok; exact Hm |].
    split; [reflexivity | exact Hout].
Qed.

Lemma legacy_getstats_is_free_witness :
  mapped (w_user w0) 8192 36 /\
  result_of (sys_quotactl user_kernel (QCMD QC_GETSTATS USRQUOTA) 0 0 8192 w0)
  = Some 0 /\
  ~ mapped (fun _ : Z => @None Z) 8192 36 /\
  result_of (sys_quotactl user_kernel (QCMD QC_GETSTATS USRQUOTA) 0 0 8192
               {| w_user := fun _ => None; w_log := [] |}) = Some (- EFAULT).
Proof.
  assert (Hm : mapped (w_user w0) 8192 36) by (intros i _; discriminate).
  assert (Hn : ~ mapped (fun _ : Z => @None Z) 8192 36)
    by (intros H; apply (H 8192); [lia | reflexivity]).
  split; [exact Hm |].
  split.
  - destruct (legacy_getstats_is_free user_kernel USRQUOTA 0 0 8192 w0)
      as (r & m & Hrun & H0 & _).
    rewrite Hrun, (H0 Hm). reflexivity.
  - split; [exact Hn |].
    destruct (legacy_getstats_is_free user_kernel USRQUOTA 0 0 8192
                {| w_user := fun _ => None; w_log := [] |})
      as (r & m & Hrun & _ & Hf & _).
    rewrite Hrun, (Hf Hn). reflexivity.
Defined.
